(** * kubernetes.core: the ConfigMap / Secret hash of [plugins/module_utils/hashes.py]

    A shallow embedding of [sorted_dict], [marshal], [encode] and
    [generate_hash], of the library primitives they call ([json.dumps] with
    compact separators, [str.encode('utf-8')], [hashlib.sha256],
    [str.translate]), and of the structural differ exercised by
    [tests/unit/module_utils/test_service.py].

    Conventions of the embedding.
    - A Python [str] is a [string]; each character stands for the code point
      of the same number (0..255).
    - A Python [int] is a [Z]; floats are not part of the value model.
    - A Python [dict] is the list of its items in insertion order.  Python
      keeps the keys of a dict pairwise distinct; that invariant is the
      predicate [wf_dict].
    - [bytes] are lists of [Z] in 0..255.
    - [generate_hash] writes to the dict it is given: it is a computation
      in a state and error monad over that dict.
    - [sorted_dict] is embedded twice: as a function on values, used by
      [generate_hash], and as a program on a store of objects
      ([Store.sorted_dict_at]), where what it writes and what its result
      shares with its argument can be said; the two are related in the last
      section. *)

From Stdlib Require Import ZArith List String Ascii Bool Lia.
From Stdlib Require Import Permutation Sorted DecimalString.
From Stdlib Require Import OrderedTypeEx.
Import ListNotations.

Local Open Scope string_scope.
Local Open Scope list_scope.

(* ================================================================== *)
(** * Part I. Definitions *)
(* ================================================================== *)

(** ** [hashlib.sha256]: SHA-256 as in FIPS 180-4, on 32-bit words held in [Z] *)

Module Sha256.
Local Open Scope Z_scope.

Definition w32 (x : Z) : Z := x mod 2 ^ 32.

Definition add32 (x y : Z) : Z := w32 (x + y).

Definition not32 (x : Z) : Z := Z.lxor x 0xffffffff.

Definition rotr (n x : Z) : Z :=
  w32 (Z.lor (Z.shiftr x n) (Z.shiftl x (32 - n))).

Definition Ch (x y z : Z) : Z := Z.lxor (Z.land x y) (Z.land (not32 x) z).

Definition Maj (x y z : Z) : Z :=
  Z.lxor (Z.lxor (Z.land x y) (Z.land x z)) (Z.land y z).

Definition Sigma0 (x : Z) : Z := Z.lxor (Z.lxor (rotr 2 x) (rotr 13 x)) (rotr 22 x).
Definition Sigma1 (x : Z) : Z := Z.lxor (Z.lxor (rotr 6 x) (rotr 11 x)) (rotr 25 x).
Definition sigma0 (x : Z) : Z := Z.lxor (Z.lxor (rotr 7 x) (rotr 18 x)) (Z.shiftr x 3).
Definition sigma1 (x : Z) : Z := Z.lxor (Z.lxor (rotr 17 x) (rotr 19 x)) (Z.shiftr x 10).

(** The constants, as the standard defines them: the first 32 bits of the
    fractional parts of the cube roots (round constants) and of the square
    roots (initial hash value) of the first primes. *)
Definition is_prime (n : nat) : bool :=
  (2 <=? n)%nat &&
  forallb (fun d => negb (Nat.modulo n d =? 0)%nat) (seq 2 (n - 2)).

Definition primes_upto (n : nat) : list Z :=
  map Z.of_nat (filter is_prime (seq 0 (S n))).

(** The integer cube root of [n], below [2 ^ bits], one bit at a time. *)
Fixpoint cube_root (bits : nat) (n r : Z) : Z :=
  match bits with
  | O => r
  | S b =>
      let c := r + 2 ^ Z.of_nat b in
      cube_root b n (if c * c * c <=? n then c else r)
  end.

Definition frac_cbrt (p : Z) : Z := w32 (cube_root 40 (p * 2 ^ 96) 0).

Definition frac_sqrt (p : Z) : Z := w32 (Z.sqrt (p * 2 ^ 64)).

(** 64 round constants, from the primes 2 .. 311. *)
Definition K256 : list Z := map frac_cbrt (primes_upto 311).

(** The eight working variables a..h, also the chaining value. *)
Record state : Type := State
  { ha : Z; hb : Z; hc : Z; hd : Z; he : Z; hf : Z; hg : Z; hh : Z }.

Definition H0 : state :=
  State (frac_sqrt 2) (frac_sqrt 3) (frac_sqrt 5) (frac_sqrt 7)
        (frac_sqrt 11) (frac_sqrt 13) (frac_sqrt 17) (frac_sqrt 19).

(** Padding: the byte 0x80, zero bytes up to 56 modulo 64, then the bit
    length as a 64-bit big-endian integer. *)
Definition be_bytes (n : nat) (x : Z) : list Z :=
  map (fun i => Z.land (Z.shiftr x (8 * Z.of_nat i)) 0xff) (rev (seq 0 n)).

Definition pad (msg : list Z) : list Z :=
  let len := Z.of_nat (List.length msg) in
  let zeros := Z.to_nat ((55 - len) mod 64) in
  msg ++ [0x80] ++ repeat 0 zeros ++ be_bytes 8 (8 * len).

Fixpoint be_words (bs : list Z) : list Z :=
  match bs with
  | b0 :: b1 :: b2 :: b3 :: rest =>
      (Z.shiftl b0 24 + Z.shiftl b1 16 + Z.shiftl b2 8 + b3) :: be_words rest
  | _ => []
  end.

Fixpoint blocks (fuel : nat) (ws : list Z) : list (list Z) :=
  match fuel, ws with
  | S fuel', _ :: _ => firstn 16 ws :: blocks fuel' (skipn 16 ws)
  | _, _ => []
  end.

(** Message schedule: [w] holds W(t-1), ..., W(0), most recent first. *)
Fixpoint schedule (n : nat) (w : list Z) : list Z :=
  match n with
  | O => w
  | S n' =>
      let wt := add32 (add32 (sigma1 (nth 1 w 0)) (nth 6 w 0))
                      (add32 (sigma0 (nth 14 w 0)) (nth 15 w 0)) in
      schedule n' (wt :: w)
  end.

Definition round (s : state) (kw : Z * Z) : state :=
  let t1 := add32 (add32 (add32 (hh s) (Sigma1 (he s))) (Ch (he s) (hf s) (hg s)))
                  (add32 (fst kw) (snd kw)) in
  let t2 := add32 (Sigma0 (ha s)) (Maj (ha s) (hb s) (hc s)) in
  State (add32 t1 t2) (ha s) (hb s) (hc s) (add32 (hd s) t1) (he s) (hf s) (hg s).

Definition compress (h : state) (block : list Z) : state :=
  let w := rev (schedule 48 (rev block)) in
  let s := fold_left round (combine K256 w) h in
  State (add32 (ha h) (ha s)) (add32 (hb h) (hb s)) (add32 (hc h) (hc s))
        (add32 (hd h) (hd s)) (add32 (he h) (he s)) (add32 (hf h) (hf s))
        (add32 (hg h) (hg s)) (add32 (hh h) (hh s)).

Definition digest_state (msg : list Z) : state :=
  let ws := be_words (pad msg) in
  fold_left compress (blocks (List.length ws) ws) H0.

Definition state_words (s : state) : list Z :=
  [ha s; hb s; hc s; hd s; he s; hf s; hg s; hh s].

(** [hashlib.sha256(msg).digest()]: 32 bytes. *)
Definition digest (msg : list Z) : list Z :=
  flat_map (be_bytes 4) (state_words (digest_state msg)).

Definition hex_digit (n : Z) : ascii :=
  nth (Z.to_nat (n mod 16))
      (list_ascii_of_string "0123456789abcdef") "0"%char.

Definition hex_byte (b : Z) : list ascii :=
  [hex_digit (Z.shiftr b 4); hex_digit b].

(** [hashlib.sha256(msg).hexdigest()]: lower-case hexadecimal. *)
Definition hexdigest (msg : list Z) : string :=
  string_of_list_ascii (flat_map hex_byte (digest msg)).

End Sha256.

(** The bytes of an ASCII string, for test vectors. *)
Definition bytes_of_ascii_string (s : string) : list Z :=
  map (fun c => Z.of_N (N_of_ascii c)) (list_ascii_of_string s).

(** ** Python values

    The operations on dicts are written once for any type of stored values:
    they serve the values below and the references of the object store at
    the end of Part I. *)

(** The JSON-like values a resource definition is made of.  A [dict] is the
    list of its items in insertion order. *)
#[warnings="-register-all"]
Inductive value : Type :=
| VNone
| VBool (b : bool)
| VInt (n : Z)
| VStr (s : string)
| VList (l : list value)
| VDict (d : list (string * value)).

Definition dict : Type := list (string * value).

Definition keys (d : dict) : list string := map fst d.

Fixpoint mem_key (k : string) (ks : list string) : bool :=
  match ks with
  | [] => false
  | k' :: ks' => String.eqb k' k || mem_key k ks'
  end.

Fixpoint distinct (ks : list string) : bool :=
  match ks with
  | [] => true
  | k :: ks' => negb (mem_key k ks') && distinct ks'
  end.

(** The invariant Python maintains on every dict: no key occurs twice. *)
Fixpoint wf_value (v : value) : bool :=
  match v with
  | VList l => forallb wf_value l
  | VDict d => distinct (map fst d) && forallb (fun kv => wf_value (snd kv)) d
  | _ => true
  end.

Definition wf_dict (d : dict) : bool := wf_value (VDict d).

(** [d.get(k)] / [k in d]: the value stored under [k], if any. *)
Fixpoint dict_get {A : Type} (k : string) (d : list (string * A)) : option A :=
  match d with
  | [] => None
  | (k', v) :: d' => if String.eqb k' k then Some v else dict_get k d'
  end.

(** [d.get(k, default)] *)
Definition dict_get_default {A : Type} (k : string) (default : A)
    (d : list (string * A)) : A :=
  match dict_get k d with
  | Some v => v
  | None => default
  end.

(** [d[k] = v]: an existing key keeps its position, a new key goes last. *)
Fixpoint dict_set {A : Type} (k : string) (v : A) (d : list (string * A))
    : list (string * A) :=
  match d with
  | [] => [(k, v)]
  | (k', v') :: d' =>
      if String.eqb k' k then (k, v) :: d' else (k', v') :: dict_set k v d'
  end.

(** [del d[k]]: [None] stands for the KeyError of a missing key. *)
Fixpoint dict_del {A : Type} (k : string) (d : list (string * A))
    : option (list (string * A)) :=
  match d with
  | [] => None
  | (k', v') :: d' =>
      if String.eqb k' k then Some d'
      else match dict_del k d' with
           | Some r => Some ((k', v') :: r)
           | None => None
           end
  end.

(** ** [sorted(d.items())]

    The items are (key, value) tuples.  Python compares tuples on the first
    component where they differ, and the keys of a dict are pairwise
    distinct, so the order is the order of the keys ([str] comparison is
    lexicographic on code points) and the values are never compared.
    [sorted] is stable; so is this insertion sort. *)
Fixpoint insert_item {A : Type} (x : string * A) (l : list (string * A))
    : list (string * A) :=
  match l with
  | [] => [x]
  | y :: l' =>
      if String.leb (fst x) (fst y) then x :: l else y :: insert_item x l'
  end.

Definition sorted {A : Type} (items : list (string * A)) : list (string * A) :=
  fold_right insert_item [] items.

(** ** [sorted_dict] (hashes.py, lines 36-42)

    [result = OrderedDict(); for (k, v) in sorted(...): result[k] = v]
    is [assign_all] on the empty dict.  The recursive call on a dict value is
    made here before the items are sorted, the source makes it while it walks
    the sorted items; [sorted] looks at keys only, so the two agree, which is
    lemma [sorted_dict_unfold] below. *)
Definition assign_all {A : Type} (items result : list (string * A))
    : list (string * A) :=
  fold_left (fun result kv => dict_set (fst kv) (snd kv) result) items result.

Definition map_values {A B : Type} (g : A -> B) (d : list (string * A))
    : list (string * B) :=
  map (fun kv => (fst kv, g (snd kv))) d.

(** [v if not isinstance(v, dict) else sorted_dict(v)] *)
Fixpoint sorted_value (v : value) : value :=
  match v with
  | VDict d => VDict (assign_all (sorted (map_values sorted_value d)) [])
  | _ => v
  end.

Definition sorted_dict (unsorted_dict : dict) : dict :=
  assign_all (sorted (map_values sorted_value unsorted_dict)) [].

(** ** [json.dumps(obj, separators=(',', ':'))]

    Defaults of the other options: [ensure_ascii=True], [sort_keys=False]. *)

Definition hex4 (n : N) : string :=
  string_of_list_ascii
    [Sha256.hex_digit (Z.of_N (n / 4096)); Sha256.hex_digit (Z.of_N (n / 256));
     Sha256.hex_digit (Z.of_N (n / 16)); Sha256.hex_digit (Z.of_N n)].

Definition quote : string := String (ascii_of_nat 34) EmptyString.

(** One character of [py_encode_basestring_ascii]: the short escapes, the
    printable ASCII range as it is, a [\uXXXX] escape for everything else. *)
Definition escape_char (c : ascii) : string :=
  let n := N_of_ascii c in
  if (n =? 34)%N then ("\" ++ quote)%string
  else if (n =? 92)%N then "\\"
  else if (n =? 8)%N then "\b"
  else if (n =? 12)%N then "\f"
  else if (n =? 10)%N then "\n"
  else if (n =? 13)%N then "\r"
  else if (n =? 9)%N then "\t"
  else if ((32 <=? n) && (n <=? 126))%N then String c EmptyString
  else ("\u" ++ hex4 n)%string.

Fixpoint escape_string (s : string) : string :=
  match s with
  | EmptyString => EmptyString
  | String c s' => (escape_char c ++ escape_string s')%string
  end.

Definition encode_basestring_ascii (s : string) : string :=
  (quote ++ escape_string s ++ quote)%string.

Fixpoint json_dumps (v : value) : string :=
  match v with
  | VNone => "null"
  | VBool true => "true"
  | VBool false => "false"
  | VInt n => NilZero.string_of_int (Z.to_int n)
  | VStr s => encode_basestring_ascii s
  | VList l => ("[" ++ String.concat "," (map json_dumps l) ++ "]")%string
  | VDict d =>
      ("{" ++ String.concat ","
                (map (fun kv => encode_basestring_ascii (fst kv) ++ ":"
                                ++ json_dumps (snd kv))%string d) ++ "}")%string
  end.

(** ** [str.encode('utf-8')] for code points below 256 *)
Definition utf8_char (c : ascii) : list Z :=
  let n := Z.of_N (N_of_ascii c) in
  if (n <? 128)%Z then [n]
  else [(192 + Z.shiftr n 6)%Z; (128 + Z.land n 63)%Z].

Definition utf8_encode (s : string) : list Z :=
  flat_map utf8_char (list_ascii_of_string s).

(** ** [maketrans] and [str.translate] *)
Definition maketrans (x y : string) : list (ascii * ascii) :=
  combine (list_ascii_of_string x) (list_ascii_of_string y).

Fixpoint table_get (c : ascii) (t : list (ascii * ascii)) : option ascii :=
  match t with
  | [] => None
  | (a, b) :: t' => if Ascii.eqb a c then Some b else table_get c t'
  end.

Fixpoint translate (t : list (ascii * ascii)) (s : string) : string :=
  match s with
  | EmptyString => EmptyString
  | String c s' =>
      String (match table_get c t with Some b => b | None => c end)
             (translate t s')
  end.

(** ** [marshal] (hashes.py, lines 59-63) *)
Definition marshal (data : dict) (keys : list string) : list Z :=
  let ordered :=
    fold_left (fun ordered key =>
                 dict_set key (dict_get_default key (VStr EmptyString) data) ordered)
              keys [] in
  utf8_encode (json_dumps (VDict ordered)).

(** ** [encode] (hashes.py, lines 66-67) *)
Definition encode (resource : list Z) : string :=
  translate (maketrans "013ae" "ghkmt")
            (substring 0 10 (Sha256.hexdigest resource)).

(** ** Exceptions and the state of the caller's dict

    [generate_hash] assigns to and deletes from the dict it is given, so it
    is a computation on that dict: it maps the dict before the call to the
    outcome and the dict after the call.  An exception keeps the
    assignments made before it was raised. *)
Inductive exn : Type := KeyError | AttributeError | NotImplementedError.

Inductive result (A : Type) : Type :=
| Return (a : A)
| Raise (e : exn).
Arguments Return {A} a.
Arguments Raise {A} e.

Definition M (A : Type) : Type := dict -> result A * dict.

Definition ret {A} (a : A) : M A := fun s => (Return a, s).

Definition raise {A} (e : exn) : M A := fun s => (Raise e, s).

Definition bind {A B} (m : M A) (f : A -> M B) : M B :=
  fun s => match m s with
           | (Return a, s') => f a s'
           | (Raise e, s') => (Raise e, s')
           end.

Notation "x <- m ;; f" := (bind m (fun x => f))
  (at level 61, m at next level, right associativity).
Notation "m ;;; f" := (bind m (fun _ => f))
  (at level 61, right associativity).

Definition lift {A} (r : result A) : M A := fun s => (r, s).

(** [resource] read as a whole *)
Definition read : M dict := fun s => (Return s, s).

(** [resource.get(k, default)] *)
Definition get_or (k : string) (default : value) : M value :=
  fun s => (Return (dict_get_default k default s), s).

(** [resource[k]] *)
Definition getitem (k : string) : M value :=
  fun s => match dict_get k s with
           | Some v => (Return v, s)
           | None => (Raise KeyError, s)
           end.

(** [resource[k] = v] *)
Definition setitem (k : string) (v : value) : M unit :=
  fun s => (Return tt, dict_set k v s).

(** [del(resource[k])] *)
Definition delitem (k : string) : M unit :=
  fun s => match dict_del k s with
           | Some s' => (Return tt, s')
           | None => (Raise KeyError, s)
           end.

(** [v.get(k, default)] on an arbitrary value: only a dict has [get]. *)
Definition py_get (v : value) (k : string) (default : value) : result value :=
  match v with
  | VDict d => Return (dict_get_default k default d)
  | _ => Raise AttributeError
  end.

(** [v == 'literal'] *)
Definition eq_str (v : value) (s : string) : bool :=
  match v with
  | VStr s' => String.eqb s' s
  | _ => false
  end.

(** ** [generate_hash] (hashes.py, lines 45-56) *)
Definition generate_hash : M string :=
  metadata <- get_or "metadata" (VDict []) ;;
  name <- lift (py_get metadata "name" (VStr EmptyString)) ;;
  setitem "name" name ;;;
  kind <- getitem "kind" ;;
  if eq_str kind "ConfigMap" then
    resource <- read ;;
    let marshalled := marshal (sorted_dict resource) ["data"; "kind"; "name"] in
    delitem "name" ;;;
    ret (encode marshalled)
  else
    kind <- getitem "kind" ;;
    if eq_str kind "Secret" then
      resource <- read ;;
      let marshalled :=
        marshal (sorted_dict resource) ["data"; "kind"; "name"; "type"] in
      delitem "name" ;;;
      ret (encode marshalled)
    else raise NotImplementedError.


(** ** Notions the statements are written in *)

(** The order of [str] keys, as a relation. *)
Definition key_lt (a b : string) : Prop := String.compare a b = Lt.

Definition key_le (a b : string) : Prop := String.leb a b = true.

Definition item_le {A : Type} (x y : string * A) : Prop :=
  key_le (fst x) (fst y).

(** Keys in strictly ascending order. *)
Definition ascending (ks : list string) : Prop := StronglySorted key_lt ks.

(** Canonical form: every mapping reached through mappings has its keys in
    ascending order (sequences are not entered). *)
Fixpoint canonical (v : value) : Prop :=
  match v with
  | VDict d =>
      ascending (map fst d) /\
      (fix all (l : dict) : Prop :=
         match l with
         | [] => True
         | kv :: l' => canonical (snd kv) /\ all l'
         end) d
  | _ => True
  end.

(** Two values that differ at most in the order of the items of their
    mappings.  With [deep = true] mappings inside sequences may be
    reordered as well; with [deep = false] a sequence has to be the same on
    both sides. *)
Inductive key_reorder (deep : bool) : value -> value -> Prop :=
| kr_same v : key_reorder deep v v
| kr_list l1 l2 :
    deep = true -> list_reorder deep l1 l2 ->
    key_reorder deep (VList l1) (VList l2)
| kr_dict d1 d d2 :
    Permutation d1 d -> items_reorder deep d d2 ->
    key_reorder deep (VDict d1) (VDict d2)
with list_reorder (deep : bool) : list value -> list value -> Prop :=
| lr_nil : list_reorder deep [] []
| lr_cons v1 v2 l1 l2 :
    key_reorder deep v1 v2 -> list_reorder deep l1 l2 ->
    list_reorder deep (v1 :: l1) (v2 :: l2)
with items_reorder (deep : bool) : dict -> dict -> Prop :=
| ir_nil : items_reorder deep [] []
| ir_cons k v1 v2 d1 d2 :
    key_reorder deep v1 v2 -> items_reorder deep d1 d2 ->
    items_reorder deep ((k, v1) :: d1) ((k, v2) :: d2).

Scheme key_reorder_mut := Minimality for key_reorder Sort Prop
  with list_reorder_mut := Minimality for list_reorder Sort Prop
  with items_reorder_mut := Minimality for items_reorder Sort Prop.

Combined Scheme reorder_mutind
  from key_reorder_mut, list_reorder_mut, items_reorder_mut.

(** A Document (specification, section 3): a dict, with pairwise distinct
    keys at every level, whose [metadata], when it is there, is a nested
    mapping.  It need not have a [kind]. *)
Definition metadata_is_mapping (d : dict) : bool :=
  match dict_get "metadata" d with
  | None => true
  | Some (VDict _) => true
  | Some _ => false
  end.

Definition Document (d : dict) : Prop :=
  wf_dict d = true /\ metadata_is_mapping d = true.

(** The nested path [metadata.name]. *)
Definition metadata_name (d : dict) : option value :=
  match dict_get "metadata" d with
  | Some (VDict m) => dict_get "name" m
  | _ => None
  end.

(** ** The value [generate_hash] returns, in closed form

    [projection] and [fingerprint] give the hash of a Document of a
    supported kind as one expression over its fields, still with the
    [sorted_value] and [json_dumps] of the code: they say what is hashed.
    The fingerprint in the specification's own words, which shares neither
    of the two, is the module [Spec] below. *)

Definition or_empty (o : option value) : value :=
  match o with
  | Some v => v
  | None => VStr EmptyString
  end.

(** What the projection holds under a key: [name] is [metadata.name], every
    other key is the top-level field. *)
Definition field (d : dict) (k : string) : option value :=
  if String.eqb k "name" then metadata_name d else dict_get k d.

(** Step 4: the projection keys of each supported kind. *)
Definition projection_keys (kind : string) : option (list string) :=
  if String.eqb kind "ConfigMap" then Some ["data"; "kind"; "name"]
  else if String.eqb kind "Secret" then Some ["data"; "kind"; "name"; "type"]
  else None.

(** Steps 3 and 4: the keys in the given order, a missing one as the empty
    string, each value in canonical form. *)
Definition projection (ks : list string) (d : dict) : dict :=
  map (fun k => (k, sorted_value (or_empty (field d k)))) ks.

(** Step 6: the substitution on hexadecimal characters. *)
Definition substitute (c : ascii) : ascii :=
  match c with
  | "0" => "g"
  | "1" => "h"
  | "3" => "k"
  | "a" => "m"
  | "e" => "t"
  | _ => c
  end%char.

(** Steps 5 to 7. *)
Definition fingerprint (ks : list string) (d : dict) : string :=
  let text := json_dumps (VDict (projection ks d)) in
  let hex := Sha256.hexdigest (utf8_encode text) in
  string_of_list_ascii
    (map substitute (firstn 10 (list_ascii_of_string hex))).

(** ** The fingerprint as section 4.1 of the specification words it

    A second definition for the comparison with [generate_hash].  It is
    written from the steps of section 4.1 and uses none of the definitions
    that embed the code: not [sorted_value], [json_dumps], [utf8_encode],
    [marshal], [encode] or [translate].  What it shares with the code is
    the value model, the lookup in a dict and SHA-256. *)

Module Spec.

(** Step 3, [recursively key-sorted]: [c] is [v] with the keys of every
    mapping, at every depth of mappings, in ascending order, and nothing
    else changed; sequences and scalars are as they were. *)
Definition key_sorted (v c : value) : Prop :=
  key_reorder false v c /\ canonical c.

(** Steps 2 and 4: [p] has exactly the keys [ks], in that order; under
    [name] it holds [metadata.name], under any other key the field of that
    name, the empty string for what is absent; each in key-sorted form. *)
Definition projection_of (ks : list string) (d p : dict) : Prop :=
  Forall2 (fun k kv =>
             fst kv = k /\ key_sorted (or_empty (field d k)) (snd kv))
          ks p.

(** Step 5: compact JSON.  A string is written in ASCII: the two-character
    escapes for the quotation mark, the backslash and the control
    characters that have one, the printable ASCII characters as they are,
    a [\u00XX] escape for every other code point. *)
Definition quotation_mark : ascii := ascii_of_nat 34.

Definition hex_char (n : N) : ascii :=
  nth (N.to_nat n) (list_ascii_of_string "0123456789abcdef") "0"%char.

Definition unicode_escape (n : N) : string :=
  ("\u00" ++ String (hex_char (n / 16)) (String (hex_char (n mod 16))
                                                 EmptyString))%string.

Definition json_char (c : ascii) : string :=
  match N_of_ascii c with
  | 8%N => "\b"
  | 9%N => "\t"
  | 10%N => "\n"
  | 12%N => "\f"
  | 13%N => "\r"
  | 34%N => String "\" (String quotation_mark EmptyString)
  | 92%N => "\\"
  | n => if ((n <? 32) || (126 <? n))%N then unicode_escape n
         else String c EmptyString
  end.

Fixpoint json_chars (s : string) : string :=
  match s with
  | EmptyString => EmptyString
  | String c s' => (json_char c ++ json_chars s')%string
  end.

Definition json_string (s : string) : string :=
  String quotation_mark (json_chars s ++ String quotation_mark EmptyString).

(** An integer in decimal. *)
Definition decimal (n : Z) : string :=
  match n with
  | Z0 => "0"
  | Zpos p => NilZero.string_of_uint (Pos.to_uint p)
  | Zneg p => String "-" (NilZero.string_of_uint (Pos.to_uint p))
  end.

(** The texts of [l] with [sep] between one and the next. *)
Fixpoint join (sep : string) (l : list string) : string :=
  match l with
  | [] => EmptyString
  | [x] => x
  | x :: l' => (x ++ sep ++ join sep l')%string
  end.

(** [,] between the fields of a mapping and between the elements of a
    sequence, [:] between a key and its value, no white space. *)
Fixpoint compact_json (v : value) : string :=
  match v with
  | VNone => "null"
  | VBool b => if b then "true" else "false"
  | VInt n => decimal n
  | VStr s => json_string s
  | VList l => ("[" ++ join "," (map compact_json l) ++ "]")%string
  | VDict d =>
      ("{" ++ join ","
                (map (fun kv => json_string (fst kv) ++ ":"
                                ++ compact_json (snd kv))%string d)
           ++ "}")%string
  end.

(** Step 6: the UTF-8 bytes of a text of code points below 256: one byte
    below 128, two bytes from 128 on. *)
Definition utf8_bytes (c : ascii) : list Z :=
  let n := Z.of_N (N_of_ascii c) in
  if (n <? 128)%Z then [n] else [(192 + n / 64)%Z; (128 + n mod 64)%Z].

Fixpoint utf8 (s : string) : list Z :=
  match s with
  | EmptyString => []
  | String c s' => utf8_bytes c ++ utf8 s'
  end.

(** Steps 5 to 7, on a projection: the first 10 hexadecimal characters of
    the SHA-256 digest of the UTF-8 bytes of the compact JSON text, with
    0, 1, 3, a, e replaced by g, h, k, m, t. *)
Definition fingerprint (p : dict) : string :=
  let text := compact_json (VDict p) in
  let hex := list_ascii_of_string (Sha256.hexdigest (utf8 text)) in
  string_of_list_ascii (map substitute (firstn 10 hex)).

End Spec.

(** ** Resources used as examples *)

(** [pod_definition] of tests/unit/module_utils/test_service.py *)
Definition pod_definition : dict :=
  [ ("apiVersion", VStr "v1");
    ("kind", VStr "Pod");
    ("metadata",
     VDict [ ("name", VStr "foo");
             ("labels", VDict [ ("environment", VStr "production");
                                ("app", VStr "nginx") ]);
             ("namespace", VStr "foo") ]);
    ("spec",
     VDict [ ("containers",
              VList [ VDict [ ("name", VStr "nginx");
                              ("image", VStr "nginx:1.14.2");
                              ("command",
                               VList [VStr "/bin/sh"; VStr "-c";
                                      VStr "sleep 10"]) ] ]) ]) ].

(** The resource of the specification's hash example (section 8). *)
Definition configmap_n : dict :=
  [ ("kind", VStr "ConfigMap");
    ("metadata", VDict [("name", VStr "n")]);
    ("data", VDict [("k", VStr "v")]) ].

(** A ConfigMap that has a top-level [name] of its own. *)
Definition configmap_named : dict :=
  [ ("kind", VStr "ConfigMap");
    ("name", VStr "mine");
    ("metadata", VDict [("name", VStr "n")]);
    ("data", VDict [("k", VStr "v")]) ].

Definition secret_s : dict :=
  [ ("type", VStr "Opaque");
    ("metadata", VDict [("namespace", VStr "default"); ("name", VStr "s")]);
    ("kind", VStr "Secret");
    ("data", VDict [("user", VStr "YQ=="); ("pass", VStr "Yg==")]);
    ("apiVersion", VStr "v1") ].

(** Two ConfigMaps that differ in the key order of a mapping held in a
    sequence under [data]. *)
Definition configmap_seq_xy : dict :=
  [ ("kind", VStr "ConfigMap");
    ("data", VDict [("a", VList [VDict [("x", VInt 1); ("y", VInt 2)]])]) ].

Definition configmap_seq_yx : dict :=
  [ ("kind", VStr "ConfigMap");
    ("data", VDict [("a", VList [VDict [("y", VInt 2); ("x", VInt 1)]])]) ].

(** Two ConfigMaps that differ in the key order of mappings only. *)
Definition configmap_ab : dict :=
  [ ("kind", VStr "ConfigMap");
    ("metadata", VDict [("name", VStr "n"); ("namespace", VStr "d")]);
    ("data", VDict [("a", VStr "1"); ("b", VStr "2")]) ].

Definition configmap_ba : dict :=
  [ ("data", VDict [("b", VStr "2"); ("a", VStr "1")]);
    ("metadata", VDict [("namespace", VStr "d"); ("name", VStr "n")]);
    ("kind", VStr "ConfigMap") ].

(** The right-hand side of line 47:
    [resource.get('metadata', {}).get('name', '')]. *)
Definition lookup_name (resource : dict) : result value :=
  py_get (dict_get_default "metadata" (VDict []) resource) "name"
         (VStr EmptyString).

(** The keys [generate_hash] hands to [marshal], by the tests on [kind] of
    lines 48 and 52. *)
Definition marshal_keys (kind : value) : option (list string) :=
  if eq_str kind "ConfigMap" then Some ["data"; "kind"; "name"]
  else if eq_str kind "Secret" then Some ["data"; "kind"; "name"; "type"]
  else None.

(** [configmap_n] with fields the projection leaves out. *)
Definition configmap_n_noise : dict :=
  [ ("apiVersion", VStr "v1");
    ("name", VStr "top");
    ("metadata",
     VDict [ ("labels", VDict [("app", VStr "x")]);
             ("name", VStr "n");
             ("namespace", VStr "prod") ]);
    ("data", VDict [("k", VStr "v")]);
    ("immutable", VBool true);
    ("kind", VStr "ConfigMap") ].

(** A resource without [kind]. *)
Definition no_kind : dict :=
  [ ("metadata", VDict [("name", VStr "n")]); ("data", VDict []) ].

(** ** The structural differ *)

Module Differ.

(** Modelled from the spec: [DiffObjects] (specification, section 4.2).
    The method [K8sService.diff_objects] that the tests of
    tests/unit/module_utils/test_service.py call is not among the sources;
    the definitions of this module follow the four steps of the
    specification. *)

(** Equality of values, a mapping being equal to another when they hold
    the same value under the same keys, in whatever order (section 3: a
    Document is an order-irrelevant mapping). *)
Fixpoint all2 {A : Type} (f : A -> A -> bool) (l1 l2 : list A) : bool :=
  match l1, l2 with
  | [], [] => true
  | x :: l1', y :: l2' => f x y && all2 f l1' l2'
  | _, _ => false
  end.

Fixpoint same_value (a b : value) : bool :=
  match a, b with
  | VNone, VNone => true
  | VBool x, VBool y => Bool.eqb x y
  | VInt x, VInt y => Z.eqb x y
  | VStr x, VStr y => String.eqb x y
  | VList l1, VList l2 => all2 same_value l1 l2
  | VDict d1, VDict d2 =>
      Nat.eqb (List.length d1) (List.length d2) &&
      forallb (fun kv => match dict_get (fst kv) d2 with
                         | Some y => same_value (snd kv) y
                         | None => false
                         end) d1
  | _, _ => false
  end.

(** Step 3: an ancestor key is kept on a side only when that side has a
    differing descendant. *)
Definition keep (k : string) (sub : dict) (side : dict) : dict :=
  match sub with
  | [] => side
  | _ :: _ => (k, VDict sub) :: side
  end.

(** Step 2 for one key of the before side; [acc] holds what both sides
    have recorded for the keys after it. *)
Definition diff_key (diff : value -> value -> dict * dict) (after : dict)
    (kv : string * value) (acc : dict * dict) : dict * dict :=
  match dict_get (fst kv) after with
  | None => (kv :: fst acc, snd acc)
  | Some y =>
      match snd kv, y with
      | VDict _, VDict _ =>
          let sub := diff (snd kv) y in
          (keep (fst kv) (fst sub) (fst acc), keep (fst kv) (snd sub) (snd acc))
      | x, _ =>
          if same_value x y then acc
          else (kv :: fst acc, (fst kv, y) :: snd acc)
      end
  end.

(** Steps 1 to 3 on two mappings: the partial documents of the before side
    and of the after side.  Keys of the after side alone come last. *)
Fixpoint diff_value (vb va : value) {struct vb} : dict * dict :=
  match vb, va with
  | VDict before, VDict after =>
      let both := fold_right (diff_key diff_value after) ([], []) before in
      (fst both,
       snd both ++
       filter (fun kv => negb (mem_key (fst kv) (keys before))) after)
  | _, _ => ([], [])
  end.

(** Step 4. *)
Definition diff_objects (before after : dict) : bool * dict :=
  match diff_value (VDict before) (VDict after) with
  | ([], []) => (true, [])
  | (b, a) => (false, [("before", VDict b); ("after", VDict a)])
  end.

(** [pod_definition_updated] of the test file, first version (line 34). *)
Definition pod_definition_updated : dict :=
  [ ("apiVersion", VStr "v1");
    ("kind", VStr "Pod");
    ("metadata",
     VDict [ ("name", VStr "foo");
             ("labels", VDict [ ("environment", VStr "testing");
                                ("app", VStr "nginx") ]);
             ("namespace", VStr "bar") ]);
    ("spec",
     VDict [ ("containers",
              VList [ VDict [ ("name", VStr "nginx");
                              ("image", VStr "nginx:1.14.2");
                              ("command",
                               VList [VStr "/bin/sh"; VStr "-c";
                                      VStr "sleep 10"]) ] ]) ]) ].

End Differ.

(** ** [sorted_dict] on the object store

    Python dicts and lists are objects with an identity.  To speak of what
    [sorted_dict] writes and of what its result shares with its argument,
    this module runs it on a store: a list of objects, an object's address
    being its position, a new object going to the end. *)

Module Store.

Definition addr : Type := nat.

(** What a variable or a container slot holds: a scalar, or the address of
    a list or dict object. *)
Inductive ref : Type :=
| RNone
| RBool (b : bool)
| RInt (n : Z)
| RStr (s : string)
| RObj (a : addr).

Inductive obj : Type :=
| OList (elems : list ref)
| ODict (items : list (string * ref)).

Definition heap : Type := list obj.

Definition lookup (h : heap) (a : addr) : option obj := nth_error h a.

(** Overwrite the object at [a]; nothing happens when [a] is not allocated. *)
Fixpoint update (a : addr) (o : obj) (h : heap) : heap :=
  match h, a with
  | [], _ => []
  | _ :: h', O => o :: h'
  | x :: h', S a' => x :: update a' o h'
  end.

(** [isinstance(v, dict)] *)
Definition is_dict (h : heap) (v : ref) : bool :=
  match v with
  | RObj a => match lookup h a with
              | Some (ODict _) => true
              | _ => false
              end
  | _ => false
  end.

(** [result[k] = v] on the dict object at [result] *)
Definition setitem_at (result : addr) (k : string) (v : ref) (h : heap) : heap :=
  match lookup h result with
  | Some (ODict items) => update result (ODict (dict_set k v items)) h
  | _ => h
  end.

(** Lines 39-40: [if isinstance(v, dict): v = sorted_dict(v)], with the
    recursive call as a parameter. *)
Definition convert (rec : addr -> heap -> option (addr * heap))
    (v : ref) (h : heap) : option (ref * heap) :=
  if is_dict h v then
    match v with
    | RObj a => match rec a h with
                | Some (r, h') => Some (RObj r, h')
                | None => None
                end
    | _ => None
    end
  else Some (v, h).

(** One turn of the loop of lines 38-41. *)
Definition loop_body (rec : addr -> heap -> option (addr * heap))
    (result : addr) (st : option heap) (kv : string * ref) : option heap :=
  match st with
  | None => None
  | Some h =>
      match convert rec (snd kv) h with
      | Some (v, h') => Some (setitem_at result (fst kv) v h')
      | None => None
      end
  end.

(** [sorted_dict] on the dict object at address [unsorted_dict]: the
    address of the result and the store after the call.  [None]: the fuel
    is used up (the recursion of the source is as deep as the mappings are
    nested), or there is no dict at the address. *)
Fixpoint sorted_dict_at (fuel : nat) (unsorted_dict : addr) (h : heap)
    : option (addr * heap) :=
  match fuel with
  | O => None
  | S fuel' =>
      match lookup h unsorted_dict with
      | Some (ODict items) =>
          let result := List.length h in
          match fold_left (loop_body (sorted_dict_at fuel') result)
                          (sorted items) (Some (h ++ [ODict []])) with
          | Some h' => Some (result, h')
          | None => None
          end
      | _ => None
      end
  end.

(** The value laid out in the store at a reference, every object visited
    being at an address that satisfies [P]. *)
#[warnings="-register-all"]
Inductive repr (P : addr -> Prop) (h : heap) : ref -> value -> Prop :=
| repr_none : repr P h RNone VNone
| repr_bool b : repr P h (RBool b) (VBool b)
| repr_int n : repr P h (RInt n) (VInt n)
| repr_str s : repr P h (RStr s) (VStr s)
| repr_list a elems l :
    P a -> lookup h a = Some (OList elems) ->
    Forall2 (repr P h) elems l ->
    repr P h (RObj a) (VList l)
| repr_dict a items d :
    P a -> lookup h a = Some (ODict items) ->
    Forall2 (fun ri kv => fst ri = fst kv /\ repr P h (snd ri) (snd kv))
            items d ->
    repr P h (RObj a) (VDict d).

Definition below (n : nat) : addr -> Prop := fun a => a < n.

(** Plain representation: no condition on the addresses. *)
Definition represents (h : heap) (r : ref) (v : value) : Prop :=
  repr (fun _ => True) h r v.

(** A structure built after the store had [hi] objects out of one that lay
    below [lo]: every mapping, at every depth of mappings, is an object at
    an address from [hi] on; a sequence is an object below [lo], with all
    it holds. *)
#[warnings="-register-all"]
Inductive built (lo hi : nat) (h : heap) : ref -> value -> Prop :=
| built_none : built lo hi h RNone VNone
| built_bool b : built lo hi h (RBool b) (VBool b)
| built_int n : built lo hi h (RInt n) (VInt n)
| built_str s : built lo hi h (RStr s) (VStr s)
| built_list a l :
    repr (below lo) h (RObj a) (VList l) ->
    built lo hi h (RObj a) (VList l)
| built_dict a items d :
    hi <= a -> lookup h a = Some (ODict items) ->
    Forall2 (fun ri kv => fst ri = fst kv /\ built lo hi h (snd ri) (snd kv))
            items d ->
    built lo hi h (RObj a) (VDict d).

(** How deep mappings are nested in mappings. *)
Fixpoint depth (v : value) : nat :=
  match v with
  | VDict d => S (fold_right (fun kv m => Nat.max (depth (snd kv)) m) 0 d)
  | _ => 0
  end.

(** What one call establishes, stated for the step [convert] so that it
    covers the values that are not dicts. *)
Definition call_spec (v : value) : Prop :=
  forall lo h r fuel,
    lo <= List.length h -> repr (below lo) h r v -> depth v <= fuel ->
    exists r' ext,
      convert (sorted_dict_at fuel) r h = Some (r', h ++ ext) /\
      built lo (List.length h) (h ++ ext) r' (sorted_value v).

(** A store for examples: at 0 the dict [{"b": {"y": 2, "x": [3]}, "a": 1}],
    its inner dict at 1, the list at 2. *)
Definition example_heap : heap :=
  [ ODict [("b", RObj 1); ("a", RInt 1)];
    ODict [("y", RInt 2); ("x", RObj 2)];
    OList [RInt 3] ].

Definition example_value : dict :=
  [ ("b", VDict [("y", VInt 2); ("x", VList [VInt 3])]); ("a", VInt 1) ].

(** The objects a reference leads to: the object it names and, through the
    elements of lists and the values of dicts, the objects these lead to. *)
Inductive reaches (h : heap) : ref -> addr -> Prop :=
| reaches_object a : reaches h (RObj a) a
| reaches_element a elems r b :
    lookup h a = Some (OList elems) -> In r elems -> reaches h r b ->
    reaches h (RObj a) b
| reaches_value a items kv b :
    lookup h a = Some (ODict items) -> In kv items ->
    reaches h (snd kv) b -> reaches h (RObj a) b.

(** Two structures share only what is not a mapping: no object that both
    lead to is a dict. *)
Definition shares_no_mapping (h : heap) (r1 r2 : ref) : Prop :=
  forall b, reaches h r1 b -> reaches h r2 b -> is_dict h (RObj b) = false.

(** A store with a mapping inside a sequence: at 0 the dict
    [{"l": [{"x": 1}]}], its list at 1, the dict in the list at 2. *)
Definition sequence_heap : heap :=
  [ ODict [("l", RObj 1)];
    OList [RObj 2];
    ODict [("x", RInt 1)] ].

Definition sequence_value : dict :=
  [ ("l", VList [VDict [("x", VInt 1)]]) ].

End Store.

(** ** Notions and examples for the further properties *)

(** [configmap_ab], and [configmap_ba], with the keys of every mapping in
    ascending order. *)
Definition configmap_sorted : dict :=
  [ ("data", VDict [("a", VStr "1"); ("b", VStr "2")]);
    ("kind", VStr "ConfigMap");
    ("metadata", VDict [("name", VStr "n"); ("namespace", VStr "d")]) ].

(** Characters and bytes of the ASCII range. *)
Definition ascii7 (c : ascii) : bool := (N_of_ascii c <? 128)%N.

Definition ascii_text (s : string) : bool :=
  forallb ascii7 (list_ascii_of_string s).

(** Membership of a character in a string. *)
Definition char_in (s : string) (c : ascii) : bool :=
  existsb (Ascii.eqb c) (list_ascii_of_string s).

(** The items of a dict other than [name]. *)
Definition without_name (d : dict) : dict :=
  filter (fun kv => negb (String.eqb (fst kv) "name")) d.

(** A ConfigMap whose [metadata] is a string. *)
Definition configmap_bad_metadata : dict :=
  [ ("kind", VStr "ConfigMap"); ("metadata", VStr "x") ].

(** A ConfigMap without [data] and without [metadata], and one that has
    the empty string in their place and a [type]. *)
Definition configmap_bare : dict := [ ("kind", VStr "ConfigMap") ].

Definition configmap_empty_fields : dict :=
  [ ("type", VStr "Opaque");
    ("metadata", VDict [("name", VStr EmptyString)]);
    ("data", VStr EmptyString);
    ("kind", VStr "ConfigMap") ].

(** A store whose one dict holds itself under the key [self]. *)
Definition self_heap : Store.heap := [ Store.ODict [("self", Store.RObj 0)] ].

(** *** Reading the text of [json.dumps] back

    Devices for the proof that the text determines the value. *)

From Stdlib Require DecimalZ.

(** What may follow a value inside a text: nothing, or the separator or
    the closing bracket of the enclosing list or dict. *)
Definition after_value (s : string) : bool :=
  match s with
  | EmptyString => true
  | String c _ => char_in ",]}" c
  end.

(** The constructor of a value, and the constructor a first character
    announces. *)
Definition tag (v : value) : nat :=
  match v with
  | VNone => 0
  | VBool _ => 1
  | VInt _ => 2
  | VStr _ => 3
  | VList _ => 4
  | VDict _ => 5
  end.

Definition tag_of_char (c : ascii) : nat :=
  if Ascii.eqb c "n" then 0
  else if char_in "tf" c then 1
  else if char_in "-0123456789" c then 2
  else if Ascii.eqb c (ascii_of_nat 34) then 3
  else if Ascii.eqb c "[" then 4
  else if Ascii.eqb c "{" then 5
  else 6.

Definition hex_value (c : ascii) : N :=
  let n := N_of_ascii c in
  if (n <? 58)%N then (n - 48)%N else (n - 87)%N.

(** The first character of an escaped string, decoded, and the rest of the
    text; [None] at the closing quote. *)
Definition unescape_head (text : string) : option (ascii * string) :=
  match text with
  | EmptyString => None
  | String c rest =>
      if Ascii.eqb c "\" then
        match rest with
        | EmptyString => None
        | String x rest' =>
            if Ascii.eqb x "u" then
              match rest' with
              | String h1 (String h2 (String h3 (String h4 r))) =>
                  Some (ascii_of_N
                          (((hex_value h1 * 16 + hex_value h2) * 16
                            + hex_value h3) * 16 + hex_value h4), r)
              | _ => None
              end
            else if Ascii.eqb x "b" then Some (ascii_of_nat 8, rest')
            else if Ascii.eqb x "f" then Some (ascii_of_nat 12, rest')
            else if Ascii.eqb x "n" then Some (ascii_of_nat 10, rest')
            else if Ascii.eqb x "r" then Some (ascii_of_nat 13, rest')
            else if Ascii.eqb x "t" then Some (ascii_of_nat 9, rest')
            else Some (x, rest')
        end
      else if Ascii.eqb c (ascii_of_nat 34) then None
      else Some (c, rest)
  end.

(** The elements of a list or dict after the first, each behind its comma,
    up to the closing bracket; and the whole sequence. *)
Fixpoint rest_text (closer : ascii) (l : list string) (s : string) : string :=
  match l with
  | [] => String closer s
  | x :: l' => ("," ++ x ++ rest_text closer l' s)%string
  end.

Definition seq_text (closer : ascii) (l : list string) (s : string) : string :=
  match l with
  | [] => String closer s
  | x :: l' => (x ++ rest_text closer l' s)%string
  end.

(** A decimal numeral without digits stands for zero. *)
Definition nz (d : Decimal.uint) : Decimal.uint :=
  match d with
  | Decimal.Nil => Decimal.D0 Decimal.Nil
  | _ => d
  end.

Definition nz_int (i : Decimal.int) : Decimal.int :=
  match i with
  | Decimal.Pos d => Decimal.Pos (nz d)
  | Decimal.Neg d => Decimal.Neg (nz d)
  end.

(** A printer of elements reads back: two elements whose texts, each
    followed by what may follow a value, are equal, are equal, and so are
    the texts that follow. *)
Definition reads_back {A : Type} (pr : A -> string) (a : A) : Prop :=
  forall a' s s',
    after_value s = true -> after_value s' = true ->
    (pr a ++ s = pr a' ++ s')%string -> a = a' /\ s = s'.

(** The text of one item of a dict. *)
Definition item_text (kv : string * value) : string :=
  (encode_basestring_ascii (fst kv) ++ ":" ++ json_dumps (snd kv))%string.

(** The bytes [generate_hash] hands to [encode] for a Document, in terms
    of the projection. *)
Definition hashed_bytes (ks : list string) (d : dict) : list Z :=
  utf8_encode (json_dumps (VDict (projection ks d))).

(** Two ConfigMaps that differ in a value under [data]. *)
Definition configmap_v1 : dict :=
  [ ("kind", VStr "ConfigMap");
    ("metadata", VDict [("name", VStr "n")]);
    ("data", VDict [("k", VStr "v1194562")]) ].

Definition configmap_v2 : dict :=
  [ ("kind", VStr "ConfigMap");
    ("metadata", VDict [("name", VStr "n")]);
    ("data", VDict [("k", VStr "v1797976")]) ].
(* ================================================================== *)
(** * Part II. Theorems *)
(* ================================================================== *)

(** ** The constants and test vectors of SHA-256 (FIPS 180-4) *)

Example sha_round_constants :
  List.length Sha256.K256 = 64%nat /\
  firstn 4 Sha256.K256 = [0x428a2f98; 0x71374491; 0xb5c0fbcf; 0xe9b5dba5]%Z /\
  nth 63 Sha256.K256 0%Z = 0xc67178f2%Z.
Proof. vm_compute. repeat split. Qed.

Example sha_initial_value :
  Sha256.state_words Sha256.H0 =
  [0x6a09e667; 0xbb67ae85; 0x3c6ef372; 0xa54ff53a;
   0x510e527f; 0x9b05688c; 0x1f83d9ab; 0x5be0cd19]%Z.
Proof. vm_compute. reflexivity. Qed.

Example sha_empty : Sha256.hexdigest [] =
  "e3b0c44298fc1c149afbf4c8996fb92427ae41e4649b934ca495991b7852b855".
Proof. vm_compute. reflexivity. Qed.

Example sha_abc : Sha256.hexdigest (bytes_of_ascii_string "abc") =
  "ba7816bf8f01cfea414140de5dae2223b00361a396177a9cb410ff61f20015ad".
Proof. vm_compute. reflexivity. Qed.

Example sha_two_blocks : Sha256.hexdigest (bytes_of_ascii_string
  "abcdbcdecdefdefgefghfghighijhijkijkljklmklmnlmnomnopnopq") =
  "248d6a61d20638b8e5c026930c3e6039a33ce45964ff2167f6ecedd419db06c1".
Proof. vm_compute. reflexivity. Qed.

(** ** Induction on values *)

Lemma value_ind' (P : value -> Prop) :
  P VNone -> (forall b, P (VBool b)) -> (forall n, P (VInt n)) ->
  (forall s, P (VStr s)) ->
  (forall l, Forall P l -> P (VList l)) ->
  (forall d, Forall (fun kv => P (snd kv)) d -> P (VDict d)) ->
  forall v, P v.
Proof.
  intros HN HB HI HS HL HD.
  fix IH 1.
  intros [ | b | n | s | l | d ].
  - exact HN.
  - apply HB.
  - apply HI.
  - apply HS.
  - apply HL. induction l as [ | x l IHl ]; constructor; [apply IH | exact IHl].
  - apply HD. induction d as [ | [k x] d IHd ]; constructor;
      [apply IH | exact IHd].
Qed.

(** ** The order on keys *)

Lemma key_lt_trans a b c : key_lt a b -> key_lt b c -> key_lt a c.
Proof.
  unfold key_lt. intros H1 H2.
  apply String_as_OT.cmp_lt in H1. apply String_as_OT.cmp_lt in H2.
  apply String_as_OT.cmp_lt. eapply String_as_OT.lt_trans; eauto.
Qed.

Lemma key_lt_irrefl a : ~ key_lt a a.
Proof.
  unfold key_lt. intros H.
  assert (E : String.compare a a = Eq) by (apply String_as_OT.cmp_eq; reflexivity).
  congruence.
Qed.

Lemma key_le_iff a b : key_le a b <-> a = b \/ key_lt a b.
Proof.
  unfold key_le, key_lt, String.leb. split.
  - destruct (String.compare a b) eqn:E; intros H; try discriminate.
    + left. now apply String_as_OT.cmp_eq.
    + now right.
  - intros [-> | ->]; [ | reflexivity].
    replace (String.compare b b) with Eq; [reflexivity | ].
    symmetry. now apply String_as_OT.cmp_eq.
Qed.

Lemma leb_false_lt a b : String.leb a b = false -> key_lt b a.
Proof.
  unfold key_lt, String.leb. rewrite (String.compare_antisym b a).
  destruct (String.compare a b); simpl; intros H; congruence.
Qed.

Lemma key_lt_le a b : key_lt a b -> key_le a b.
Proof. intros H. apply key_le_iff. now right. Qed.

Lemma key_le_trans a b c : key_le a b -> key_le b c -> key_le a c.
Proof.
  rewrite !key_le_iff. intros [-> | H1] [-> | H2]; auto.
  right. eapply key_lt_trans; eauto.
Qed.

Lemma key_lt_neq a b : key_lt a b -> a <> b.
Proof. intros H ->. exact (key_lt_irrefl _ H). Qed.

Lemma key_le_neq_lt a b : key_le a b -> a <> b -> key_lt a b.
Proof. rewrite key_le_iff. intros [-> | H] N; [contradiction | exact H]. Qed.

(** ** Dict operations *)

Lemma mem_key_In k ks : mem_key k ks = true <-> In k ks.
Proof.
  induction ks as [ | k' ks IH ]; simpl.
  - split; [discriminate | tauto].
  - rewrite orb_true_iff, IH, String.eqb_eq. tauto.
Qed.

Lemma distinct_NoDup ks : distinct ks = true <-> NoDup ks.
Proof.
  induction ks as [ | k ks IH ]; simpl.
  - split; [constructor | reflexivity].
  - rewrite andb_true_iff, negb_true_iff, IH. split.
    + intros [H1 H2]. constructor; [ | exact H2].
      rewrite <- mem_key_In. congruence.
    + intros H. inversion H as [ | ? ? H1 H2 ]; subst. split; [ | exact H2].
      destruct (mem_key k ks) eqn:E; [ | reflexivity].
      apply mem_key_In in E. contradiction.
Qed.

Lemma wf_dict_NoDup d : wf_dict d = true -> NoDup (map fst d).
Proof.
  unfold wf_dict. simpl. rewrite andb_true_iff. intros [H _].
  now apply distinct_NoDup.
Qed.

Lemma wf_dict_values d :
  wf_dict d = true -> Forall (fun kv => wf_value (snd kv) = true) d.
Proof.
  unfold wf_dict. simpl. rewrite andb_true_iff. intros [_ H].
  apply Forall_forall. now apply forallb_forall.
Qed.

Lemma wf_dict_intro d :
  NoDup (map fst d) -> Forall (fun kv => wf_value (snd kv) = true) d ->
  wf_dict d = true.
Proof.
  intros H1 H2. unfold wf_dict. simpl. apply andb_true_iff. split.
  - now apply distinct_NoDup.
  - apply forallb_forall. now apply Forall_forall.
Qed.

(** The lemmas on the dict operations hold for any type of stored values. *)
Section Items.
Context {A : Type}.
Implicit Types (d l r : list (string * A)) (x y : string * A).
Implicit Types (k : string) (v : A).

Lemma dict_get_In k v d : dict_get k d = Some v -> In (k, v) d.
Proof.
  induction d as [ | [k' v'] d IH ]; simpl; [discriminate | ].
  destruct (String.eqb_spec k' k) as [-> | N].
  - intros [= ->]. now left.
  - intros H. right. auto.
Qed.

Lemma dict_get_None k d : dict_get k d = None <-> ~ In k (map fst d).
Proof.
  induction d as [ | [k' v'] d IH ]; simpl.
  - tauto.
  - destruct (String.eqb_spec k' k) as [-> | N].
    + split; [discriminate | ]. intros H. exfalso. apply H. now left.
    + rewrite IH. tauto.
Qed.

Lemma In_dict_get k v d :
  NoDup (map fst d) -> In (k, v) d -> dict_get k d = Some v.
Proof.
  induction d as [ | [k' v'] d IH ]; simpl; [tauto | ].
  intros ND [E | H].
  - inversion E; subst. now rewrite String.eqb_refl.
  - inversion ND as [ | ? ? H1 H2 ]; subst.
    destruct (String.eqb_spec k' k) as [-> | N].
    + exfalso. apply H1. apply (in_map (@fst string A)) in H. exact H.
    + auto.
Qed.

Lemma dict_get_perm k d d' :
  NoDup (map fst d) -> Permutation d d' -> dict_get k d = dict_get k d'.
Proof.
  intros ND HP.
  assert (ND' : NoDup (map fst d')).
  { eapply Permutation_NoDup; [ | exact ND]. now apply Permutation_map. }
  destruct (dict_get k d) as [v | ] eqn:E.
  - symmetry. apply In_dict_get; [exact ND' | ].
    eapply Permutation_in; [exact HP | ]. now apply dict_get_In.
  - symmetry. apply dict_get_None. apply dict_get_None in E.
    intros H. apply E. eapply Permutation_in; [ | exact H].
    apply Permutation_map. now apply Permutation_sym.
Qed.

Lemma dict_get_set k k' v d :
  dict_get k (dict_set k' v d) =
  if String.eqb k' k then Some v else dict_get k d.
Proof.
  induction d as [ | [k0 v0] d IH ]; simpl.
  - destruct (String.eqb k' k); reflexivity.
  - destruct (String.eqb_spec k0 k') as [-> | N]; simpl.
    + destruct (String.eqb k' k); reflexivity.
    + rewrite IH. destruct (String.eqb_spec k0 k) as [-> | N0].
      * destruct (String.eqb_spec k' k) as [-> | ]; [congruence | reflexivity].
      * reflexivity.
Qed.

Lemma dict_set_fresh k v d :
  ~ In k (map fst d) -> dict_set k v d = d ++ [(k, v)].
Proof.
  induction d as [ | [k0 v0] d IH ]; simpl; [reflexivity | ].
  intros H. destruct (String.eqb_spec k0 k) as [-> | N].
  - exfalso. apply H. now left.
  - rewrite IH; [reflexivity | tauto].
Qed.

Lemma dict_set_keys_known k v d :
  In k (map fst d) -> map fst (dict_set k v d) = map fst d.
Proof.
  induction d as [ | [k0 v0] d IH ]; simpl; [tauto | ].
  intros H. destruct (String.eqb_spec k0 k) as [-> | N]; simpl.
  - reflexivity.
  - rewrite IH; [reflexivity | ]. destruct H; [contradiction | assumption].
Qed.

Lemma dict_set_Forall (P : string * A -> Prop) k v d :
  P (k, v) -> Forall P d -> Forall P (dict_set k v d).
Proof.
  intros Hk. induction d as [ | [k0 v0] d IH ]; simpl; intros H.
  - constructor; [exact Hk | constructor].
  - inversion H; subst. destruct (String.eqb k0 k); constructor; auto.
Qed.

Lemma dict_del_app_fresh k v d :
  ~ In k (map fst d) -> dict_del k (d ++ [(k, v)]) = Some d.
Proof.
  induction d as [ | [k0 v0] d IH ]; simpl.
  - now rewrite String.eqb_refl.
  - intros H. destruct (String.eqb_spec k0 k) as [-> | N].
    + exfalso. apply H. now left.
    + rewrite IH; [reflexivity | tauto].
Qed.

(** ** [sorted] *)

Lemma insert_item_perm x l : Permutation (insert_item x l) (x :: l).
Proof.
  induction l as [ | y l IH ]; simpl; [reflexivity | ].
  destruct (String.leb (fst x) (fst y)); [reflexivity | ].
  rewrite IH. apply perm_swap.
Qed.

Lemma sorted_perm l : Permutation (sorted l) l.
Proof.
  induction l as [ | x l IH ]; simpl; [reflexivity | ].
  rewrite insert_item_perm. now constructor.
Qed.

Lemma insert_item_sorted x l :
  StronglySorted item_le l -> StronglySorted item_le (insert_item x l).
Proof.
  induction 1 as [ | y l Hs IH Hy ]; simpl.
  - constructor; constructor.
  - destruct (String.leb (fst x) (fst y)) eqn:E.
    + constructor; [now constructor | ].
      constructor; [exact E | ].
      eapply Forall_impl; [ | exact Hy]. intros z Hz.
      eapply key_le_trans; [exact E | exact Hz].
    + constructor; [exact IH | ].
      eapply Permutation_Forall.
      * apply Permutation_sym. apply insert_item_perm.
      * constructor; [ | exact Hy].
        apply key_lt_le. now apply leb_false_lt.
Qed.

Lemma sorted_sorted l : StronglySorted item_le (sorted l).
Proof.
  induction l as [ | x l IH ]; simpl; [constructor | ].
  now apply insert_item_sorted.
Qed.

Lemma ascending_NoDup (ks : list string) : ascending ks -> NoDup ks.
Proof.
  induction 1 as [ | k ks Hs IH Hk ]; constructor; [ | exact IH].
  intros H. rewrite Forall_forall in Hk.
  exact (key_lt_irrefl _ (Hk _ H)).
Qed.

Lemma sorted_ascending_id l : ascending (map fst l) -> sorted l = l.
Proof.
  induction l as [ | x l IH ]; simpl; [reflexivity | ].
  intros H. inversion H as [ | ? ? Hs Hx ]; subst.
  rewrite (IH Hs). destruct l as [ | y l ]; simpl; [reflexivity | ].
  inversion Hx as [ | ? ? Hxy _ ]; subst.
  apply key_lt_le in Hxy. unfold key_le in Hxy. now rewrite Hxy.
Qed.

Lemma le_sorted_ascending l :
  StronglySorted item_le l -> NoDup (map fst l) -> ascending (map fst l).
Proof.
  induction 1 as [ | x l Hs IH Hx ]; simpl; intros ND; [constructor | ].
  inversion ND as [ | ? ? Hn ND' ]; subst.
  constructor; [now apply IH | ].
  apply Forall_forall. intros k Hk.
  apply in_map_iff in Hk. destruct Hk as [y [<- Hy]].
  rewrite Forall_forall in Hx.
  apply key_le_neq_lt; [exact (Hx _ Hy) | ].
  intros E. apply Hn. rewrite E. now apply in_map.
Qed.

(** Two lists of items with ascending keys and the same items are equal. *)
Lemma ascending_perm_eq l1 : forall l2,
  ascending (map fst l1) -> ascending (map fst l2) ->
  Permutation l1 l2 -> l1 = l2.
Proof.
  induction l1 as [ | x l1 IH ]; intros l2 H1 H2 HP.
  - apply Permutation_nil in HP. now subst.
  - destruct l2 as [ | y l2 ].
    + apply Permutation_sym, Permutation_nil in HP. discriminate.
    + simpl in H1, H2.
      inversion H1 as [ | ? ? Hs1 Hx ]; subst.
      inversion H2 as [ | ? ? Hs2 Hy ]; subst.
      assert (E : x = y).
      { assert (Ix : In x (y :: l2))
          by (eapply Permutation_in; [exact HP | now left]).
        assert (Iy : In y (x :: l1))
          by (eapply Permutation_in;
              [apply Permutation_sym; exact HP | now left]).
        destruct Ix as [Ix | Ix]; [now subst | ].
        destruct Iy as [Iy | Iy]; [now subst | ].
        exfalso. rewrite Forall_forall in Hx, Hy.
        apply (key_lt_irrefl (fst x)).
        eapply key_lt_trans.
        - apply Hx. apply in_map. exact Iy.
        - apply Hy. apply in_map. exact Ix. }
      subst y. f_equal. apply IH; auto.
      eapply Permutation_cons_inv. exact HP.
Qed.

(** On a dict, the result of [sorted] does not depend on the insertion
    order. *)
Lemma sorted_perm_eq l1 l2 :
  NoDup (map fst l1) -> Permutation l1 l2 -> sorted l1 = sorted l2.
Proof.
  intros ND HP.
  assert (ND2 : NoDup (map fst l2)).
  { eapply Permutation_NoDup; [ | exact ND]. now apply Permutation_map. }
  apply ascending_perm_eq.
  - apply le_sorted_ascending; [apply sorted_sorted | ].
    eapply Permutation_NoDup; [ | exact ND].
    apply Permutation_map. apply Permutation_sym. apply sorted_perm.
  - apply le_sorted_ascending; [apply sorted_sorted | ].
    eapply Permutation_NoDup; [ | exact ND2].
    apply Permutation_map. apply Permutation_sym. apply sorted_perm.
  - rewrite sorted_perm, HP. apply Permutation_sym. apply sorted_perm.
Qed.
Lemma dict_del_set k v d :
  dict_del k (dict_set k v d) =
  Some (match dict_del k d with Some r => r | None => d end).
Proof.
  induction d as [ | [k0 v0] d IH ]; simpl.
  - now rewrite String.eqb_refl.
  - destruct (String.eqb_spec k0 k) as [-> | N]; simpl.
    + now rewrite String.eqb_refl.
    + apply String.eqb_neq in N. rewrite N, IH.
      destruct (dict_del k d); reflexivity.
Qed.

Lemma dict_del_None k d : dict_del k d = None <-> ~ In k (map fst d).
Proof.
  induction d as [ | [k0 v0] d IH ]; simpl; [tauto | ].
  destruct (String.eqb_spec k0 k) as [-> | N].
  - split; [discriminate | ]. intros H. exfalso. apply H. now left.
  - destruct (dict_del k d) eqn:E.
    + split; [discriminate | ]. intros H. exfalso.
      assert (H' : ~ In k (map fst d)) by tauto.
      apply IH in H'. discriminate.
    + split; [ | reflexivity]. intros _ [H | H]; [contradiction | ].
      revert H. now apply IH.
Qed.

Lemma dict_del_removes k d : forall r,
  NoDup (map fst d) -> dict_del k d = Some r -> ~ In k (map fst r).
Proof.
  induction d as [ | [k0 v0] d IH ]; simpl; intros r W E; [discriminate | ].
  inversion W as [ | ? ? Hn W' ]; subst.
  destruct (String.eqb_spec k0 k) as [-> | N].
  - injection E as <-. exact Hn.
  - destruct (dict_del k d) as [r' | ]; [ | discriminate].
    injection E as <-. simpl. intros [H | H]; [contradiction | ].
    exact (IH r' W' eq_refl H).
Qed.

Lemma dict_set_NoDup k v d :
  NoDup (map fst d) -> NoDup (map fst (dict_set k v d)).
Proof.
  intros ND. destruct (in_dec string_dec k (map fst d)) as [I | NI].
  - now rewrite dict_set_keys_known.
  - rewrite (dict_set_fresh _ _ _ NI), map_app. simpl.
    apply NoDup_app_remove_l with (l := []). simpl.
    apply Permutation_NoDup with (l := k :: map fst d).
    + apply Permutation_cons_append.
    + now constructor.
Qed.

(** ** [result[k] = v] over a list of items *)

Lemma assign_all_cons x l r :
  assign_all (x :: l) r = assign_all l (dict_set (fst x) (snd x) r).
Proof. reflexivity. Qed.

(** Items with pairwise distinct keys, none of them in [r] yet, are appended
    as they come. *)
Lemma assign_all_fresh l : forall r,
  NoDup (map fst (r ++ l)) -> assign_all l r = r ++ l.
Proof.
  induction l as [ | [k v] l IH ]; intros r ND.
  - simpl. now rewrite app_nil_r.
  - rewrite assign_all_cons. simpl fst. simpl snd.
    assert (Hk : ~ In k (map fst r)).
    { rewrite map_app in ND. simpl in ND. apply NoDup_remove_2 in ND.
      intros H. apply ND. apply in_or_app. now left. }
    rewrite (dict_set_fresh _ _ _ Hk).
    rewrite IH; rewrite <- app_assoc; [reflexivity | exact ND].
Qed.

Lemma ascending_snoc (ks : list string) (k : string) :
  ascending ks -> Forall (fun a => key_lt a k) ks -> ascending (ks ++ [k]).
Proof.
  induction 1 as [ | a ks Hs IH Ha ]; simpl; intros H.
  - constructor; constructor.
  - inversion H as [ | ? ? Hak Hks ]; subst.
    constructor; [now apply IH | ].
    apply Forall_app. split; [exact Ha | ].
    constructor; [exact Hak | constructor].
Qed.

(** Assigning items that come in key order yields ascending keys, also when
    a key occurs more than once. *)
Lemma assign_all_ascending l : forall r,
  StronglySorted item_le l -> ascending (map fst r) ->
  (forall a b, In a (map fst r) -> In b l -> key_le a (fst b)) ->
  ascending (map fst (assign_all l r)).
Proof.
  induction l as [ | [k v] l IH ]; intros r Hl Hr Hb; [exact Hr | ].
  rewrite assign_all_cons. simpl fst. simpl snd.
  inversion Hl as [ | ? ? Hs Hx ]; subst. rewrite Forall_forall in Hx.
  destruct (in_dec string_dec k (map fst r)) as [I | NI].
  - apply IH; [exact Hs | now rewrite dict_set_keys_known | ].
    rewrite (dict_set_keys_known _ _ _ I). intros a b Ha Hb'.
    apply Hb; [exact Ha | now right].
  - rewrite (dict_set_fresh _ _ _ NI). apply IH; [exact Hs | | ].
    + rewrite map_app. simpl. apply ascending_snoc; [exact Hr | ].
      apply Forall_forall. intros a Ha.
      apply key_le_neq_lt.
      * apply (Hb a (k, v)); [exact Ha | now left].
      * intros ->. contradiction.
    + intros a b Ha Hb'. rewrite map_app in Ha. apply in_app_or in Ha.
      destruct Ha as [Ha | [<- | []]].
      * eapply key_le_trans; [apply (Hb a (k, v)); [exact Ha | now left] | ].
        exact (Hx _ Hb').
      * exact (Hx _ Hb').
Qed.

Lemma assign_all_Forall (P : string * A -> Prop) l : forall r,
  Forall P l -> Forall P r -> Forall P (assign_all l r).
Proof.
  induction l as [ | [k v] l IH ]; intros r Hl Hr; [exact Hr | ].
  rewrite assign_all_cons. inversion Hl; subst.
  apply IH; [assumption | ]. now apply dict_set_Forall.
Qed.

End Items.

Section MapValues.
Context {A B : Type}.
Implicit Types (g : A -> B) (d l r : list (string * A)) (x : string * A).

Lemma dict_get_map_values g k d :
  dict_get k (map_values g d) = option_map g (dict_get k d).
Proof.
  induction d as [ | [k0 v0] d IH ]; simpl; [reflexivity | ].
  destruct (String.eqb k0 k); [reflexivity | exact IH].
Qed.

Lemma map_values_keys g d : map fst (map_values g d) = map fst d.
Proof.
  unfold map_values. rewrite map_map. reflexivity.
Qed.

Lemma insert_item_map_values g x l :
  insert_item (fst x, g (snd x)) (map_values g l) =
  map_values g (insert_item x l).
Proof.
  induction l as [ | y l IH ]; simpl; [reflexivity | ].
  destruct (String.leb (fst x) (fst y)); simpl; [reflexivity | ].
  f_equal. exact IH.
Qed.

Lemma sorted_map_values g l :
  sorted (map_values g l) = map_values g (sorted l).
Proof.
  induction l as [ | x l IH ]; simpl; [reflexivity | ].
  rewrite IH. apply insert_item_map_values.
Qed.

Lemma assign_all_map_values g l : forall r,
  assign_all (map_values g l) (map_values g r) =
  map_values g (assign_all l r).
Proof.
  assert (Hset : forall k v r,
    dict_set k (g v) (map_values g r) = map_values g (dict_set k v r)).
  { intros k v r. induction r as [ | [k0 v0] r IHr ]; simpl; [reflexivity | ].
    destruct (String.eqb k0 k); simpl; [reflexivity | ]. f_equal. exact IHr. }
  induction l as [ | [k v] l IH ]; intros r; [reflexivity | ].
  simpl map_values. rewrite !assign_all_cons. simpl fst. simpl snd.
  rewrite Hset. apply IH.
Qed.

End MapValues.

Lemma map_values_id {A : Type} (g : A -> A) (d : list (string * A)) :
  Forall (fun kv => g (snd kv) = snd kv) d -> map_values g d = d.
Proof.
  induction 1 as [ | [k v] d H _ IH ]; simpl; [reflexivity | ].
  simpl in H. rewrite H. f_equal. exact IH.
Qed.

Lemma map_values_ext {A B : Type} (g h : A -> B) (d : list (string * A)) :
  Forall (fun kv => g (snd kv) = h (snd kv)) d ->
  map_values g d = map_values h d.
Proof.
  induction 1 as [ | [k v] d H _ IH ]; simpl; [reflexivity | ].
  simpl in H. rewrite H. f_equal. exact IH.
Qed.

(** ** [sorted_dict] *)

Lemma sorted_value_dict d : sorted_value (VDict d) = VDict (sorted_dict d).
Proof. reflexivity. Qed.

Lemma assign_all_sorted_values l : forall r,
  assign_all (map_values sorted_value l) r =
  fold_left (fun result kv =>
               let v := match snd kv with
                        | VDict d' => VDict (sorted_dict d')
                        | v => v
                        end in
               dict_set (fst kv) v result)
            l r.
Proof.
  induction l as [ | [k v] l IH ]; intros r; [reflexivity | ].
  simpl map_values. rewrite assign_all_cons. simpl fold_left.
  rewrite IH. f_equal. simpl fst. simpl snd. destruct v; reflexivity.
Qed.

(** The definition read as the loop of the source: walk the sorted items,
    call [sorted_dict] on a value that is a dict, assign. *)
Lemma sorted_dict_unfold d :
  sorted_dict d =
  fold_left (fun result kv =>
               let v := match snd kv with
                        | VDict d' => VDict (sorted_dict d')
                        | v => v
                        end in
               dict_set (fst kv) v result)
            (sorted d) [].
Proof.
  unfold sorted_dict at 1. rewrite sorted_map_values.
  apply assign_all_sorted_values.
Qed.

Lemma sorted_dict_ascending d : ascending (map fst (sorted_dict d)).
Proof.
  unfold sorted_dict. apply assign_all_ascending.
  - apply sorted_sorted.
  - constructor.
  - intros a b [].
Qed.

(** On a dict (distinct keys) every assignment appends. *)
Lemma sorted_dict_wf d :
  NoDup (map fst d) -> sorted_dict d = map_values sorted_value (sorted d).
Proof.
  intros ND. unfold sorted_dict. rewrite assign_all_fresh.
  - simpl. apply sorted_map_values.
  - simpl. rewrite sorted_map_values, map_values_keys.
    eapply Permutation_NoDup; [ | exact ND].
    apply Permutation_map. apply Permutation_sym. apply sorted_perm.
Qed.

Lemma sorted_dict_values (P : value -> Prop) d :
  Forall (fun kv => P (sorted_value (snd kv))) d ->
  Forall (fun kv => P (snd kv)) (sorted_dict d).
Proof.
  intros H. unfold sorted_dict. apply assign_all_Forall; [ | constructor].
  eapply Permutation_Forall.
  - apply Permutation_sym. apply sorted_perm.
  - unfold map_values. apply Forall_map. exact H.
Qed.

(** A dict whose keys ascend and whose values are left alone by
    [sorted_value] is returned as it is. *)
Lemma sorted_dict_fixed d :
  ascending (map fst d) ->
  Forall (fun kv => sorted_value (snd kv) = snd kv) d ->
  sorted_dict d = d.
Proof.
  intros Ha Hv. unfold sorted_dict.
  rewrite (map_values_id _ _ Hv), (sorted_ascending_id _ Ha).
  apply (assign_all_fresh d []). simpl. now apply ascending_NoDup.
Qed.

Lemma sorted_value_idempotent v :
  sorted_value (sorted_value v) = sorted_value v.
Proof.
  induction v as [ | b | n | s | l _ | d IH ] using value_ind'; try reflexivity.
  rewrite !sorted_value_dict. f_equal.
  apply sorted_dict_fixed; [apply sorted_dict_ascending | ].
  apply (sorted_dict_values (fun v => sorted_value v = v)). exact IH.
Qed.

Lemma canonical_dict d :
  canonical (VDict d) <->
  ascending (map fst d) /\ Forall (fun kv => canonical (snd kv)) d.
Proof.
  simpl. split; intros [H1 H2]; (split; [exact H1 | ]).
  - induction d as [ | kv d IH ]; [constructor | ].
    destruct H2 as [H2 H3]. constructor; [exact H2 | ].
    apply IH; [ | exact H3]. now inversion H1.
  - induction H2 as [ | kv d H2 _ IH ]; [exact I | ].
    split; [exact H2 | ]. apply IH. now inversion H1.
Qed.

Lemma sorted_value_canonical v : canonical (sorted_value v).
Proof.
  induction v as [ | b | n | s | l _ | d IH ] using value_ind';
    try exact I.
  rewrite sorted_value_dict. apply canonical_dict. split.
  - apply sorted_dict_ascending.
  - apply (sorted_dict_values canonical). exact IH.
Qed.

Lemma canonical_fixed v : canonical v -> sorted_value v = v.
Proof.
  induction v as [ | b | n | s | l _ | d IH ] using value_ind';
    try reflexivity.
  intros H. apply canonical_dict in H. destruct H as [Ha Hc].
  rewrite sorted_value_dict. f_equal. apply sorted_dict_fixed; [exact Ha | ].
  rewrite Forall_forall in *. intros kv Hkv. apply IH; auto.
Qed.

(** ** Reordering of keys and [sorted_value] *)

Lemma items_reorder_map_values deep g l :
  Forall (fun kv => key_reorder deep (snd kv) (g (snd kv))) l ->
  items_reorder deep l (map_values g l).
Proof.
  induction 1 as [ | [k v] l H _ IH ]; simpl; constructor; assumption.
Qed.

Lemma items_reorder_keys deep d1 d2 :
  items_reorder deep d1 d2 -> map fst d1 = map fst d2.
Proof.
  induction 1 as [ | k v1 v2 d1 d2 _ _ IH ]; simpl; [reflexivity | ].
  now rewrite IH.
Qed.

(** [sorted_value] only reorders the items of mappings. *)
Lemma sorted_value_reorder v :
  wf_value v = true -> key_reorder false v (sorted_value v).
Proof.
  induction v as [ | b | n | s | l _ | d IH ] using value_ind';
    intros W; try apply kr_same.
  rewrite sorted_value_dict.
  rewrite (sorted_dict_wf d (wf_dict_NoDup d W)).
  apply kr_dict with (d := sorted d).
  - apply Permutation_sym. apply sorted_perm.
  - apply items_reorder_map_values.
    eapply Permutation_Forall; [apply Permutation_sym; apply sorted_perm | ].
    pose proof (wf_dict_values d W) as Wv.
    rewrite Forall_forall in *. intros kv Hkv. apply IH; auto.
Qed.

(** Values that differ in the order of keys of mappings outside sequences
    have the same sorted form. *)
Lemma key_reorder_sorted_value_mut :
  (forall v1 v2, key_reorder false v1 v2 ->
     wf_value v1 = true -> sorted_value v1 = sorted_value v2) /\
  (forall l1 l2, list_reorder false l1 l2 -> True) /\
  (forall d1 d2, items_reorder false d1 d2 ->
     Forall (fun kv => wf_value (snd kv) = true) d1 ->
     map_values sorted_value d1 = map_values sorted_value d2).
Proof.
  apply reorder_mutind.
  - reflexivity.
  - discriminate.
  - intros d1 d d2 HP _ IH W.
    rewrite !sorted_value_dict. f_equal. unfold sorted_dict.
    rewrite <- IH.
    + rewrite (sorted_perm_eq (map_values sorted_value d1)
                              (map_values sorted_value d)); [reflexivity | | ].
      * rewrite map_values_keys. now apply wf_dict_NoDup.
      * unfold map_values. now apply Permutation_map.
    + eapply Permutation_Forall; [exact HP | ]. now apply wf_dict_values.
  - exact I.
  - intros. exact I.
  - reflexivity.
  - intros k v1 v2 d1 d2 _ IHv _ IHd W. inversion W; subst. simpl in *.
    rewrite IHv, IHd; auto.
Qed.

Lemma key_reorder_sorted_value v1 v2 :
  key_reorder false v1 v2 -> wf_value v1 = true ->
  sorted_value v1 = sorted_value v2.
Proof. apply key_reorder_sorted_value_mut. Qed.

(** ** [generate_hash], step by step *)

(** The whole function as one case analysis: the outcome, and the caller's
    dict when the call is over. *)
Lemma generate_hash_unfold d :
  generate_hash d =
  match lookup_name d with
  | Raise e => (Raise e, d)
  | Return name =>
      let d1 := dict_set "name" name d in
      match dict_get "kind" d with
      | None => (Raise KeyError, d1)
      | Some kind =>
          match marshal_keys kind with
          | Some ks =>
              (Return (encode (marshal (sorted_dict d1) ks)),
               match dict_del "name" d with Some r => r | None => d end)
          | None => (Raise NotImplementedError, d1)
          end
      end
  end.
Proof.
  unfold generate_hash, lookup_name, marshal_keys, bind, get_or, lift,
    setitem, getitem, read, delitem, ret, raise.
  destruct (py_get _ _ _) as [name | e]; [ | reflexivity].
  cbv zeta.
  assert (K : dict_get "kind" (dict_set "name" name d) = dict_get "kind" d)
    by (rewrite dict_get_set; reflexivity).
  rewrite K.
  destruct (dict_get "kind" d) as [kind | ] eqn:E; [ | reflexivity].
  destruct (eq_str kind "ConfigMap").
  - rewrite dict_del_set. reflexivity.
  - cbv beta. rewrite K. destruct (eq_str kind "Secret"); [ | reflexivity].
    rewrite dict_del_set. reflexivity.
Qed.

Lemma dict_get_sorted_dict k d :
  NoDup (map fst d) ->
  dict_get k (sorted_dict d) = option_map sorted_value (dict_get k d).
Proof.
  intros ND. rewrite (sorted_dict_wf d ND), dict_get_map_values. f_equal.
  symmetry. apply dict_get_perm; [exact ND | ].
  apply Permutation_sym. apply sorted_perm.
Qed.

(** What [marshal] reads under a key of the sorted resource. *)
Lemma marshal_field d name k :
  NoDup (map fst d) ->
  dict_get_default k (VStr EmptyString)
                   (sorted_dict (dict_set "name" name d)) =
  sorted_value (if String.eqb k "name" then name
                else or_empty (dict_get k d)).
Proof.
  intros ND. unfold dict_get_default.
  rewrite dict_get_sorted_dict by now apply dict_set_NoDup.
  rewrite dict_get_set, (String.eqb_sym "name" k).
  destruct (String.eqb k "name"); [reflexivity | ].
  destruct (dict_get k d); reflexivity.
Qed.

Lemma lookup_name_document d :
  metadata_is_mapping d = true ->
  lookup_name d = Return (or_empty (metadata_name d)).
Proof.
  unfold metadata_is_mapping, lookup_name, metadata_name, dict_get_default.
  destruct (dict_get "metadata" d) as [[ | | | | | m] | ];
    try discriminate; intros _; simpl; unfold dict_get_default.
  - destruct (dict_get "name" m); reflexivity.
  - reflexivity.
Qed.

Lemma fold_assign (g : string -> value) ks : forall r,
  fold_left (fun ordered key => dict_set key (g key) ordered) ks r =
  assign_all (map (fun key => (key, g key)) ks) r.
Proof.
  induction ks as [ | k ks IH ]; intros r; [reflexivity | ].
  simpl. rewrite IH. reflexivity.
Qed.

(** [marshal] on the sorted resource serialises the projection of the
    specification. *)
Lemma marshal_projection d name ks :
  NoDup (map fst d) -> NoDup ks ->
  name = or_empty (metadata_name d) ->
  marshal (sorted_dict (dict_set "name" name d)) ks =
  utf8_encode (json_dumps (VDict (projection ks d))).
Proof.
  intros ND NDk ->. unfold marshal. do 2 f_equal.
  rewrite fold_assign, (assign_all_fresh _ []).
  - simpl. unfold projection. f_equal. apply map_ext. intros k.
    rewrite (marshal_field d _ k ND). unfold field.
    destruct (String.eqb k "name"); reflexivity.
  - simpl. rewrite map_map. simpl. now rewrite map_id.
Qed.

(** [encode] against the wording of step 6. *)
Lemma translate_substitute s :
  translate (maketrans "013ae" "ghkmt") s =
  string_of_list_ascii (map substitute (list_ascii_of_string s)).
Proof.
  induction s as [ | c s IH ]; simpl; [reflexivity | ].
  rewrite <- IH. f_equal.
  destruct c as [[] [] [] [] [] [] [] []]; reflexivity.
Qed.

Lemma substring_firstn n s :
  list_ascii_of_string (substring 0 n s) =
  firstn n (list_ascii_of_string s).
Proof.
  revert s. induction n as [ | n IH ]; intros [ | c s ]; simpl;
    try reflexivity.
  now rewrite IH.
Qed.

Lemma encode_spec bs :
  encode bs =
  string_of_list_ascii
    (map substitute (firstn 10 (list_ascii_of_string (Sha256.hexdigest bs)))).
Proof.
  unfold encode. now rewrite translate_substitute, substring_firstn.
Qed.

(** *** Lengths *)

Lemma length_string_of_list_ascii l :
  String.length (string_of_list_ascii l) = List.length l.
Proof. induction l; simpl; congruence. Qed.

Lemma hexdigest_length bs :
  List.length (list_ascii_of_string (Sha256.hexdigest bs)) = 64%nat.
Proof.
  unfold Sha256.hexdigest. rewrite list_ascii_of_string_of_list_ascii.
  unfold Sha256.digest, Sha256.state_words.
  generalize (Sha256.digest_state bs) as s. intros s. reflexivity.
Qed.

Lemma fingerprint_length ks d : String.length (fingerprint ks d) = 10%nat.
Proof.
  unfold fingerprint. cbv zeta.
  rewrite length_string_of_list_ascii, length_map, length_firstn.
  rewrite hexdigest_length. reflexivity.
Qed.

(** The outcome of [generate_hash] on a Document of a supported kind. *)
Lemma generate_hash_supported d kind ks :
  Document d ->
  dict_get "kind" d = Some kind ->
  marshal_keys kind = Some ks ->
  generate_hash d =
  (Return (fingerprint ks d),
   match dict_del "name" d with Some r => r | None => d end).
Proof.
  intros [W Hm] Hk Hks.
  rewrite generate_hash_unfold, (lookup_name_document d Hm), Hk.
  cbv zeta. rewrite Hks. f_equal. rewrite encode_spec. unfold fingerprint.
  rewrite (marshal_projection d _ ks); auto.
  - now apply wf_dict_NoDup.
  - unfold marshal_keys in Hks.
    destruct (eq_str kind "ConfigMap");
      [ | destruct (eq_str kind "Secret"); [ | discriminate] ];
      injection Hks as <-;
      repeat constructor; simpl; intuition discriminate.
Qed.

Lemma marshal_keys_str kind ks :
  projection_keys kind = Some ks -> marshal_keys (VStr kind) = Some ks.
Proof. intros H. exact H. Qed.

Lemma marshal_keys_None kind :
  kind <> VStr "ConfigMap" -> kind <> VStr "Secret" ->
  marshal_keys kind = None.
Proof.
  intros H1 H2. unfold marshal_keys.
  destruct kind as [ | | | s | | ]; try reflexivity. simpl.
  destruct (String.eqb_spec s "ConfigMap") as [-> | _]; [congruence | ].
  destruct (String.eqb_spec s "Secret") as [-> | _]; [congruence | ].
  reflexivity.
Qed.

(** ** Fields of the sorted resource *)

Lemma wf_dict_get k v d :
  wf_dict d = true -> dict_get k d = Some v -> wf_value v = true.
Proof.
  intros W H. apply dict_get_In in H.
  pose proof (wf_dict_values d W) as Wv. rewrite Forall_forall in Wv.
  exact (Wv _ H).
Qed.

Lemma same_sorted_fields d1 d2 k :
  NoDup (map fst d1) -> NoDup (map fst d2) ->
  sorted_dict d1 = sorted_dict d2 ->
  option_map sorted_value (dict_get k d1) =
  option_map sorted_value (dict_get k d2).
Proof.
  intros N1 N2 E.
  rewrite <- (dict_get_sorted_dict k d1 N1), <- (dict_get_sorted_dict k d2 N2).
  now rewrite E.
Qed.

Lemma sorted_value_str v s : sorted_value v = VStr s -> v = VStr s.
Proof. destruct v; simpl; intros H; try discriminate; exact H. Qed.

Lemma sorted_fields_or_empty o1 o2 :
  option_map sorted_value o1 = option_map sorted_value o2 ->
  sorted_value (or_empty o1) = sorted_value (or_empty o2).
Proof.
  destruct o1, o2; simpl; intros H; try discriminate;
    [now injection H | reflexivity].
Qed.

(** Documents with the same sorted form have the same projection. *)
Lemma projection_sorted d1 d2 ks :
  Document d1 -> Document d2 ->
  sorted_dict d1 = sorted_dict d2 ->
  projection ks d1 = projection ks d2.
Proof.
  intros [W1 M1] [W2 M2] E. unfold projection. apply map_ext. intros k.
  f_equal. unfold field.
  pose proof (wf_dict_NoDup _ W1) as N1. pose proof (wf_dict_NoDup _ W2) as N2.
  destruct (String.eqb k "name").
  - pose proof (same_sorted_fields d1 d2 "metadata" N1 N2 E) as Hm.
    unfold metadata_name. unfold metadata_is_mapping in M1, M2.
    destruct (dict_get "metadata" d1) as [[ | | | | | m1] | ] eqn:E1;
      try discriminate;
      destruct (dict_get "metadata" d2) as [[ | | | | | m2] | ] eqn:E2;
      try discriminate; try reflexivity.
    simpl in Hm. injection Hm as Hm.
    apply sorted_fields_or_empty. apply same_sorted_fields.
    + apply wf_dict_NoDup. exact (wf_dict_get _ _ _ W1 E1).
    + apply wf_dict_NoDup. exact (wf_dict_get _ _ _ W2 E2).
    + exact Hm.
  - apply sorted_fields_or_empty. now apply same_sorted_fields.
Qed.

Lemma kind_sorted d1 d2 s :
  wf_dict d1 = true -> wf_dict d2 = true ->
  sorted_dict d1 = sorted_dict d2 ->
  dict_get "kind" d1 = Some (VStr s) -> dict_get "kind" d2 = Some (VStr s).
Proof.
  intros W1 W2 E H.
  pose proof (same_sorted_fields d1 d2 "kind"
                (wf_dict_NoDup _ W1) (wf_dict_NoDup _ W2) E) as Hk.
  rewrite H in Hk. simpl in Hk.
  destruct (dict_get "kind" d2) as [v | ]; [ | discriminate].
  simpl in Hk. injection Hk as Hk. symmetry in Hk.
  apply sorted_value_str in Hk. now subst.
Qed.

Lemma items_reorder_refl deep d : items_reorder deep d d.
Proof.
  induction d as [ | [k v] d IH ]; constructor; [apply kr_same | exact IH].
Qed.

Lemma list_reorder_refl deep l : list_reorder deep l l.
Proof.
  induction l as [ | v l IH ]; constructor; [apply kr_same | exact IH].
Qed.

(** ** The example resources *)

Lemma configmap_ab_ba_reorder :
  key_reorder false (VDict configmap_ab) (VDict configmap_ba).
Proof.
  apply kr_dict with
    (d := [ ("data", VDict [("a", VStr "1"); ("b", VStr "2")]);
            ("metadata", VDict [("name", VStr "n"); ("namespace", VStr "d")]);
            ("kind", VStr "ConfigMap") ]).
  - apply (Permutation_rev configmap_ab).
  - constructor; [ | constructor; [ | apply items_reorder_refl] ].
    + apply kr_dict with (d := [("b", VStr "2"); ("a", VStr "1")]);
        [apply perm_swap | apply items_reorder_refl].
    + apply kr_dict with
        (d := [("namespace", VStr "d"); ("name", VStr "n")]);
        [apply perm_swap | apply items_reorder_refl].
Qed.

Lemma configmap_seq_reorder :
  key_reorder true (VDict configmap_seq_xy) (VDict configmap_seq_yx).
Proof.
  apply kr_dict with (d := configmap_seq_xy); [reflexivity | ].
  constructor; [apply kr_same | ].
  constructor; [ | constructor].
  apply kr_dict with
    (d := [("a", VList [VDict [("x", VInt 1); ("y", VInt 2)]])]);
    [reflexivity | ].
  constructor; [ | constructor].
  apply kr_list; [reflexivity | ].
  constructor; [ | constructor].
  apply kr_dict with (d := [("y", VInt 2); ("x", VInt 1)]);
    [apply perm_swap | apply items_reorder_refl].
Qed.

Lemma document_intro d :
  wf_dict d = true -> metadata_is_mapping d = true -> Document d.
Proof. intros H1 H2. split; assumption. Qed.

(* ================================================================== *)
(** ** The claims about [sorted_dict] *)
(* ================================================================== *)

(** C6. Canonicalization is idempotent: for every dict [d],
    [sorted_dict (sorted_dict d)] is the same structure, items in the same
    order, as [sorted_dict d]. *)
Theorem sorted_dict_idempotent (d : dict) :
  sorted_dict (sorted_dict d) = sorted_dict d.
Proof.
  pose proof (sorted_value_idempotent (VDict d)) as H.
  rewrite !sorted_value_dict in H. now injection H.
Qed.

(** C7. For every dict [d] (keys pairwise distinct at every level),
    [sorted_dict d] has the keys of [d], under every key the value of [d]
    with its own nested mappings sorted, and differs from [d] in nothing but
    the order of the items of mappings: no key is dropped or added and no
    leaf value is altered. *)
Theorem sorted_dict_only_reorders (d : dict) :
  wf_dict d = true ->
  Permutation (keys d) (keys (sorted_dict d)) /\
  (forall k, dict_get k (sorted_dict d) =
             option_map sorted_value (dict_get k d)) /\
  key_reorder false (VDict d) (VDict (sorted_dict d)).
Proof.
  intros W. pose proof (wf_dict_NoDup d W) as ND. split; [ | split].
  - unfold keys. rewrite (sorted_dict_wf d ND), map_values_keys.
    apply Permutation_map. apply Permutation_sym. apply sorted_perm.
  - intros k. now apply dict_get_sorted_dict.
  - exact (sorted_value_reorder (VDict d) W).
Qed.

Lemma sorted_dict_only_reorders_witness :
  wf_dict pod_definition = true /\
  (Permutation (keys pod_definition) (keys (sorted_dict pod_definition)) /\
   (forall k, dict_get k (sorted_dict pod_definition) =
              option_map sorted_value (dict_get k pod_definition)) /\
   key_reorder false (VDict pod_definition)
               (VDict (sorted_dict pod_definition))).
Proof.
  split; [reflexivity | ].
  apply (sorted_dict_only_reorders pod_definition). reflexivity.
Defined.

(* ================================================================== *)
(** ** The claims about [generate_hash] *)
(* ================================================================== *)

(** *** The dict of the caller after the call *)

(** Supported kind, no top-level [name] before the call: the dict is as it
    was. *)
Lemma generate_hash_restores d kind ks :
  Document d -> dict_get "kind" d = Some kind ->
  marshal_keys kind = Some ks -> dict_get "name" d = None ->
  snd (generate_hash d) = d.
Proof.
  intros D Hk Hks Hn. rewrite (generate_hash_supported d kind ks D Hk Hks).
  simpl. apply dict_get_None in Hn. apply dict_del_None in Hn.
  now rewrite Hn.
Qed.

(** Supported kind: no top-level [name] is left, whether or not there was
    one before the call. *)
Lemma generate_hash_drops_name d kind ks :
  Document d -> dict_get "kind" d = Some kind ->
  marshal_keys kind = Some ks ->
  dict_get "name" (snd (generate_hash d)) = None.
Proof.
  intros D Hk Hks. rewrite (generate_hash_supported d kind ks D Hk Hks).
  simpl. destruct D as [W _]. apply wf_dict_NoDup in W.
  destruct (dict_del "name" d) as [r | ] eqn:E.
  - apply dict_get_None. exact (dict_del_removes _ _ _ W E).
  - apply dict_get_None. now apply dict_del_None.
Qed.

(** Any other kind: the assignment of line 47 stays on the dict. *)
Lemma generate_hash_leaves_name d kind :
  Document d -> dict_get "kind" d = Some kind ->
  marshal_keys kind = None ->
  snd (generate_hash d) = dict_set "name" (or_empty (metadata_name d)) d.
Proof.
  intros [_ M] Hk Hks.
  rewrite generate_hash_unfold, (lookup_name_document d M), Hk.
  cbv zeta. now rewrite Hks.
Qed.

(** A [metadata] that is not a mapping: line 47 raises AttributeError
    before the dict is touched and before [kind] is read. *)
Lemma generate_hash_metadata_not_mapping d v :
  dict_get "metadata" d = Some v -> (forall m, v <> VDict m) ->
  generate_hash d = (Raise AttributeError, d).
Proof.
  intros Hm Hv. rewrite generate_hash_unfold.
  unfold lookup_name, dict_get_default. rewrite Hm.
  destruct v; try reflexivity. exfalso. exact (Hv d0 eq_refl).
Qed.

(** C1 (the code does not keep the claim).  The claim: after
    [generate_hash] returns or raises, the caller's dict equals its value
    before the call.  On [pod_definition], of a kind that is not supported,
    the call raises NotImplementedError and the dict has gained the item
    [name: foo]; on [configmap_named], which has a top-level [name], the
    call returns a hash and the dict has lost that item. *)
Theorem generate_hash_changes_resource :
  generate_hash pod_definition =
    (Raise NotImplementedError, pod_definition ++ [("name", VStr "foo")]) /\
  generate_hash configmap_named = (Return "c55cmkg5g6", configmap_n) /\
  dict_get "name" configmap_named = Some (VStr "mine") /\
  dict_get "name" configmap_n = None.
Proof. repeat split; vm_compute; reflexivity. Qed.

(** The hash example of the specification (section 8): the text that is
    hashed and the hash. *)
Example configmap_n_text :
  json_dumps (VDict (projection ["data"; "kind"; "name"] configmap_n)) =
  ("{" ++ quote ++ "data" ++ quote ++ ":{" ++ quote ++ "k" ++ quote ++ ":"
       ++ quote ++ "v" ++ quote ++ "},"
       ++ quote ++ "kind" ++ quote ++ ":" ++ quote ++ "ConfigMap" ++ quote
       ++ "," ++ quote ++ "name" ++ quote ++ ":" ++ quote ++ "n" ++ quote
       ++ "}")%string.
Proof. reflexivity. Qed.

Example configmap_n_hash :
  generate_hash configmap_n = (Return "c55cmkg5g6", configmap_n).
Proof. vm_compute. reflexivity. Qed.

(** *** The specification's fingerprint *)

(** The serialisation of the specification and [json.dumps] with compact
    separators give the same text. *)
Lemma spec_json_char c : Spec.json_char c = escape_char c.
Proof.
  destruct c as [[] [] [] [] [] [] [] []]; reflexivity.
Qed.

Lemma spec_json_string s : Spec.json_string s = encode_basestring_ascii s.
Proof.
  unfold Spec.json_string, encode_basestring_ascii, quote,
    Spec.quotation_mark.
  change (String (ascii_of_nat 34) EmptyString ++ escape_string s
            ++ String (ascii_of_nat 34) EmptyString)%string
    with (String (ascii_of_nat 34)
            (escape_string s ++ String (ascii_of_nat 34) EmptyString)).
  do 2 f_equal.
  induction s as [ | c s IH ]; simpl; [reflexivity | ].
  now rewrite spec_json_char, IH.
Qed.

Lemma spec_decimal n : Spec.decimal n = NilZero.string_of_int (Z.to_int n).
Proof. destruct n; reflexivity. Qed.

Lemma spec_join sep l : Spec.join sep l = String.concat sep l.
Proof.
  induction l as [ | x l IH ]; simpl; [reflexivity | ].
  destruct l; [reflexivity | ]. now rewrite IH.
Qed.

Lemma spec_compact_json v : Spec.compact_json v = json_dumps v.
Proof.
  induction v as [ | b | n | s | l IH | d IH ] using value_ind'.
  - reflexivity.
  - destruct b; reflexivity.
  - apply spec_decimal.
  - apply spec_json_string.
  - change (Spec.compact_json (VList l))
      with ("[" ++ Spec.join "," (map Spec.compact_json l) ++ "]")%string.
    change (json_dumps (VList l))
      with ("[" ++ String.concat "," (map json_dumps l) ++ "]")%string.
    rewrite spec_join. do 3 f_equal. now apply map_ext_Forall.
  - change (Spec.compact_json (VDict d))
      with ("{" ++ Spec.join ","
                     (map (fun kv => Spec.json_string (fst kv) ++ ":"
                                     ++ Spec.compact_json (snd kv)) d)
                ++ "}")%string.
    change (json_dumps (VDict d))
      with ("{" ++ String.concat ","
                     (map (fun kv => encode_basestring_ascii (fst kv) ++ ":"
                                     ++ json_dumps (snd kv)) d)
                ++ "}")%string.
    rewrite spec_join. do 3 f_equal. apply map_ext_Forall.
    eapply Forall_impl; [ | exact IH].
    intros kv H. cbv beta in *. now rewrite spec_json_string, H.
Qed.

Lemma spec_utf8_bytes c : Spec.utf8_bytes c = utf8_char c.
Proof.
  destruct c as [[] [] [] [] [] [] [] []]; reflexivity.
Qed.

Lemma spec_utf8 s : Spec.utf8 s = utf8_encode s.
Proof.
  unfold utf8_encode.
  induction s as [ | c s IH ]; simpl; [reflexivity | ].
  now rewrite spec_utf8_bytes, IH.
Qed.

Lemma spec_fingerprint ks d :
  Spec.fingerprint (projection ks d) = fingerprint ks d.
Proof.
  unfold Spec.fingerprint, fingerprint. cbv zeta.
  now rewrite spec_compact_json, spec_utf8.
Qed.

(** A value has one key-sorted form, and [sorted_value] computes it. *)
Lemma key_sorted_sorted_value v :
  wf_value v = true -> Spec.key_sorted v (sorted_value v).
Proof.
  intros W. split; [now apply sorted_value_reorder | ].
  apply sorted_value_canonical.
Qed.

Lemma key_sorted_unique v c :
  wf_value v = true -> Spec.key_sorted v c -> c = sorted_value v.
Proof.
  intros W [HR HC].
  rewrite (key_reorder_sorted_value v c HR W). symmetry.
  now apply canonical_fixed.
Qed.

Lemma metadata_name_wf d v :
  wf_dict d = true -> metadata_name d = Some v -> wf_value v = true.
Proof.
  unfold metadata_name. intros W H.
  destruct (dict_get "metadata" d) as [[ | | | | | m] | ] eqn:E;
    try discriminate.
  apply (wf_dict_get "name" v m); [ | exact H].
  exact (wf_dict_get "metadata" (VDict m) d W E).
Qed.

Lemma field_wf d k :
  wf_dict d = true -> wf_value (or_empty (field d k)) = true.
Proof.
  intros W. unfold field.
  destruct (String.eqb k "name").
  - destruct (metadata_name d) as [v | ] eqn:E; [ | reflexivity].
    exact (metadata_name_wf d v W E).
  - destruct (dict_get k d) as [v | ] eqn:E; [ | reflexivity].
    exact (wf_dict_get k v d W E).
Qed.

Lemma projection_of_projection ks d :
  wf_dict d = true -> Spec.projection_of ks d (projection ks d).
Proof.
  intros W. unfold Spec.projection_of, projection.
  induction ks as [ | k ks IH ]; simpl; constructor; [ | exact IH].
  split; [reflexivity | ].
  apply key_sorted_sorted_value. now apply field_wf.
Qed.

Lemma projection_of_unique ks d q :
  wf_dict d = true -> Spec.projection_of ks d q -> q = projection ks d.
Proof.
  intros W H. unfold Spec.projection_of in H. unfold projection.
  induction H as [ | k [k' c] ks q [Hk Hc] _ IH ]; simpl; [reflexivity | ].
  simpl in Hk, Hc. subst k'.
  rewrite (key_sorted_unique _ c (field_wf d k W) Hc). now rewrite IH.
Qed.

(** The specification's steps on [secret_s], whose [data] has its keys out
    of order: the projection, the text that is hashed and the hash. *)
Example secret_s_fingerprint :
  let p := [ ("data", VDict [("pass", VStr "Yg=="); ("user", VStr "YQ==")]);
             ("kind", VStr "Secret");
             ("name", VStr "s");
             ("type", VStr "Opaque") ] in
  let q := String Spec.quotation_mark EmptyString in
  Spec.projection_of ["data"; "kind"; "name"; "type"] secret_s p /\
  Spec.compact_json (VDict p) =
  ("{" ++ q ++ "data" ++ q ++ ":{" ++ q ++ "pass" ++ q ++ ":" ++ q ++ "Yg=="
       ++ q ++ "," ++ q ++ "user" ++ q ++ ":" ++ q ++ "YQ==" ++ q ++ "},"
       ++ q ++ "kind" ++ q ++ ":" ++ q ++ "Secret" ++ q ++ ","
       ++ q ++ "name" ++ q ++ ":" ++ q ++ "s" ++ q ++ ","
       ++ q ++ "type" ++ q ++ ":" ++ q ++ "Opaque" ++ q ++ "}")%string /\
  Spec.fingerprint p = "g9dfm5g59d" /\
  fst (generate_hash secret_s) = Return "g9dfm5g59d".
Proof.
  cbv zeta. split; [ | split; [ | split] ].
  - exact (projection_of_projection ["data"; "kind"; "name"; "type"]
             secret_s eq_refl).
  - reflexivity.
  - vm_compute. reflexivity.
  - vm_compute. reflexivity.
Qed.

(** With [data] in the order of insertion the fingerprint would be another
    one: the key order of [data] counts in the text that is hashed. *)
Example secret_s_unsorted :
  Spec.fingerprint
    [ ("data", VDict [("user", VStr "YQ=="); ("pass", VStr "Yg==")]);
      ("kind", VStr "Secret");
      ("name", VStr "s");
      ("type", VStr "Opaque") ] = "ct7b9c7t89".
Proof. vm_compute. reflexivity. Qed.

(** C2. For a Document of kind ConfigMap, [generate_hash] returns the
    fingerprint of the specification over the keys data, kind, name.  There
    is exactly one projection of the Document in the sense of section 4.1:
    the keys in that order, [name] from [metadata.name], a missing key as
    the empty string, every value with the keys of its mappings in
    ascending order and otherwise unchanged.  The value returned is that
    projection written as compact JSON, through SHA-256 of the UTF-8
    bytes, the first 10 hexadecimal characters, with 0,1,3,a,e replaced by
    g,h,k,m,t.  For kind Secret the same over data, kind, name, type.  The
    result has 10 characters.  The right-hand side is [Spec], which shares
    no definition with the embedding of [sorted_dict], [marshal] and
    [encode]. *)
Theorem generate_hash_fingerprint (d : dict) (kind : string)
    (ks : list string) :
  Document d ->
  dict_get "kind" d = Some (VStr kind) ->
  projection_keys kind = Some ks ->
  exists p : dict,
    Spec.projection_of ks d p /\
    (forall q, Spec.projection_of ks d q -> q = p) /\
    fst (generate_hash d) = Return (Spec.fingerprint p) /\
    String.length (Spec.fingerprint p) = 10%nat.
Proof.
  intros D Hk Hks. exists (projection ks d).
  split; [apply projection_of_projection, D | ].
  split; [intros q; apply projection_of_unique, D | ].
  rewrite spec_fingerprint. split; [ | apply fingerprint_length].
  rewrite (generate_hash_supported d (VStr kind) ks D Hk
             (marshal_keys_str kind ks Hks)).
  reflexivity.
Qed.

Lemma generate_hash_fingerprint_witness :
  Document secret_s /\
  dict_get "kind" secret_s = Some (VStr "Secret") /\
  projection_keys "Secret" = Some ["data"; "kind"; "name"; "type"] /\
  exists p : dict,
    Spec.projection_of ["data"; "kind"; "name"; "type"] secret_s p /\
    (forall q, Spec.projection_of ["data"; "kind"; "name"; "type"]
                 secret_s q -> q = p) /\
    fst (generate_hash secret_s) = Return (Spec.fingerprint p) /\
    String.length (Spec.fingerprint p) = 10%nat.
Proof.
  assert (D : Document secret_s) by (split; reflexivity).
  split; [exact D | ]. split; [reflexivity | ]. split; [reflexivity | ].
  apply (generate_hash_fingerprint secret_s "Secret"
           ["data"; "kind"; "name"; "type"] D); reflexivity.
Defined.

(** C3. For a Document whose [kind] is neither "ConfigMap" nor "Secret",
    [generate_hash] raises NotImplementedError; it returns no
    fingerprint. *)
Theorem generate_hash_unsupported_kind (d : dict) (kind : value) :
  Document d ->
  dict_get "kind" d = Some kind ->
  kind <> VStr "ConfigMap" -> kind <> VStr "Secret" ->
  fst (generate_hash d) = Raise NotImplementedError /\
  (forall fp, fst (generate_hash d) <> Return fp).
Proof.
  intros [_ M] Hk H1 H2.
  assert (E : fst (generate_hash d) = Raise NotImplementedError).
  { rewrite generate_hash_unfold, (lookup_name_document d M), Hk.
    cbv zeta. now rewrite (marshal_keys_None kind H1 H2). }
  split; [exact E | ]. intros fp. rewrite E. discriminate.
Qed.

Lemma generate_hash_unsupported_kind_witness :
  Document pod_definition /\
  dict_get "kind" pod_definition = Some (VStr "Pod") /\
  VStr "Pod" <> VStr "ConfigMap" /\ VStr "Pod" <> VStr "Secret" /\
  (fst (generate_hash pod_definition) = Raise NotImplementedError /\
   (forall fp, fst (generate_hash pod_definition) <> Return fp)).
Proof.
  assert (D : Document pod_definition) by (split; reflexivity).
  split; [exact D | ]. split; [reflexivity | ].
  split; [discriminate | ]. split; [discriminate | ].
  apply (generate_hash_unsupported_kind pod_definition (VStr "Pod") D);
    [reflexivity | discriminate | discriminate].
Defined.

(** C9. For a Document without a top-level [kind], [generate_hash] raises
    KeyError, not NotImplementedError. *)
Theorem generate_hash_missing_kind (d : dict) :
  Document d ->
  dict_get "kind" d = None ->
  fst (generate_hash d) = Raise KeyError /\
  fst (generate_hash d) <> Raise NotImplementedError.
Proof.
  intros [_ M] Hk.
  assert (E : fst (generate_hash d) = Raise KeyError).
  { rewrite generate_hash_unfold, (lookup_name_document d M), Hk.
    reflexivity. }
  split; [exact E | ]. rewrite E. discriminate.
Qed.

Lemma generate_hash_missing_kind_witness :
  Document no_kind /\ dict_get "kind" no_kind = None /\
  (fst (generate_hash no_kind) = Raise KeyError /\
   fst (generate_hash no_kind) <> Raise NotImplementedError).
Proof.
  assert (D : Document no_kind) by (split; reflexivity).
  split; [exact D | ]. split; [reflexivity | ].
  apply (generate_hash_missing_kind no_kind D). reflexivity.
Defined.

(** C4, as the claim states it, fails: [configmap_seq_xy] and
    [configmap_seq_yx] are ConfigMaps that differ only in the key order of
    a mapping held in a sequence, and their hashes differ. *)
Lemma generate_hash_key_order_in_sequence :
  Document configmap_seq_xy /\ Document configmap_seq_yx /\
  dict_get "kind" configmap_seq_xy = Some (VStr "ConfigMap") /\
  key_reorder true (VDict configmap_seq_xy) (VDict configmap_seq_yx) /\
  fst (generate_hash configmap_seq_xy) = Return "d6md2t5kcc" /\
  fst (generate_hash configmap_seq_yx) = Return "ggmc7kd59b" /\
  fst (generate_hash configmap_seq_xy) <> fst (generate_hash configmap_seq_yx).
Proof.
  split; [split; reflexivity | ]. split; [split; reflexivity | ].
  split; [reflexivity | ]. split; [exact configmap_seq_reorder | ].
  assert (E1 : fst (generate_hash configmap_seq_xy) = Return "d6md2t5kcc")
    by (vm_compute; reflexivity).
  assert (E2 : fst (generate_hash configmap_seq_yx) = Return "ggmc7kd59b")
    by (vm_compute; reflexivity).
  split; [exact E1 | ]. split; [exact E2 | ].
  rewrite E1, E2. discriminate.
Qed.

(** C4, amended.  Two Documents of a supported kind that differ only in the
    order of the keys of mappings, at any depth of mappings but not inside
    sequences, get the same fingerprint. *)
Theorem generate_hash_key_order (d1 d2 : dict) (kind : string)
    (ks : list string) :
  Document d1 -> Document d2 ->
  dict_get "kind" d1 = Some (VStr kind) ->
  projection_keys kind = Some ks ->
  key_reorder false (VDict d1) (VDict d2) ->
  exists fp, fst (generate_hash d1) = Return fp /\
             fst (generate_hash d2) = Return fp.
Proof.
  intros D1 D2 Hk Hks HR.
  assert (E : sorted_dict d1 = sorted_dict d2).
  { pose proof (key_reorder_sorted_value _ _ HR (proj1 D1)) as H.
    rewrite !sorted_value_dict in H. now injection H. }
  exists (fingerprint ks d1). split.
  - rewrite (generate_hash_supported d1 (VStr kind) ks D1 Hk
               (marshal_keys_str kind ks Hks)).
    reflexivity.
  - rewrite (generate_hash_supported d2 (VStr kind) ks D2
               (kind_sorted d1 d2 kind (proj1 D1) (proj1 D2) E Hk)
               (marshal_keys_str kind ks Hks)).
    simpl. unfold fingerprint.
    now rewrite (projection_sorted d1 d2 ks D1 D2 E).
Qed.

Lemma generate_hash_key_order_witness :
  Document configmap_ab /\ Document configmap_ba /\
  dict_get "kind" configmap_ab = Some (VStr "ConfigMap") /\
  projection_keys "ConfigMap" = Some ["data"; "kind"; "name"] /\
  key_reorder false (VDict configmap_ab) (VDict configmap_ba) /\
  (exists fp, fst (generate_hash configmap_ab) = Return fp /\
              fst (generate_hash configmap_ba) = Return fp).
Proof.
  assert (D1 : Document configmap_ab) by (split; reflexivity).
  assert (D2 : Document configmap_ba) by (split; reflexivity).
  split; [exact D1 | ]. split; [exact D2 | ]. split; [reflexivity | ].
  split; [reflexivity | ]. split; [exact configmap_ab_ba_reorder | ].
  apply (generate_hash_key_order configmap_ab configmap_ba "ConfigMap"
           ["data"; "kind"; "name"] D1 D2); [reflexivity | reflexivity | ].
  exact configmap_ab_ba_reorder.
Defined.

(** C5. Two Documents of the same supported kind that agree on [data],
    [kind], [metadata.name] and [type] get the same fingerprint, whatever
    their other fields are. *)
Theorem generate_hash_noninterference (d1 d2 : dict) (kind : string)
    (ks : list string) :
  Document d1 -> Document d2 ->
  projection_keys kind = Some ks ->
  dict_get "kind" d1 = Some (VStr kind) ->
  dict_get "kind" d2 = Some (VStr kind) ->
  dict_get "data" d1 = dict_get "data" d2 ->
  metadata_name d1 = metadata_name d2 ->
  dict_get "type" d1 = dict_get "type" d2 ->
  exists fp, fst (generate_hash d1) = Return fp /\
             fst (generate_hash d2) = Return fp.
Proof.
  intros D1 D2 Hks K1 K2 Hd Hn Ht.
  exists (fingerprint ks d1). split.
  - rewrite (generate_hash_supported d1 (VStr kind) ks D1 K1
               (marshal_keys_str kind ks Hks)).
    reflexivity.
  - rewrite (generate_hash_supported d2 (VStr kind) ks D2 K2
               (marshal_keys_str kind ks Hks)).
    simpl. f_equal. unfold fingerprint. do 4 f_equal.
    unfold projection_keys in Hks.
    destruct (String.eqb kind "ConfigMap");
      [ | destruct (String.eqb kind "Secret"); [ | discriminate] ];
      injection Hks as <-; unfold projection, field; simpl;
      rewrite Hd, Hn, K1, K2, ?Ht; reflexivity.
Qed.

Lemma generate_hash_noninterference_witness :
  Document configmap_n /\ Document configmap_n_noise /\
  projection_keys "ConfigMap" = Some ["data"; "kind"; "name"] /\
  dict_get "kind" configmap_n = Some (VStr "ConfigMap") /\
  dict_get "kind" configmap_n_noise = Some (VStr "ConfigMap") /\
  dict_get "data" configmap_n = dict_get "data" configmap_n_noise /\
  metadata_name configmap_n = metadata_name configmap_n_noise /\
  dict_get "type" configmap_n = dict_get "type" configmap_n_noise /\
  (exists fp, fst (generate_hash configmap_n) = Return fp /\
              fst (generate_hash configmap_n_noise) = Return fp).
Proof.
  assert (D1 : Document configmap_n) by (split; reflexivity).
  assert (D2 : Document configmap_n_noise) by (split; reflexivity).
  split; [exact D1 | ]. split; [exact D2 | ].
  do 6 (split; [reflexivity | ]).
  apply (generate_hash_noninterference configmap_n configmap_n_noise
           "ConfigMap" ["data"; "kind"; "name"] D1 D2); reflexivity.
Defined.

(* ================================================================== *)
(** ** The structural differ *)
(* ================================================================== *)

Import Differ.

(** The model against the assertions of the tests and the examples of the
    specification (section 8). *)
Example test_diff_objects_meta_diff :
  diff_objects pod_definition pod_definition_updated =
  (false,
   [ ("before",
      VDict [("metadata",
              VDict [ ("labels", VDict [("environment", VStr "production")]);
                      ("namespace", VStr "foo") ])]);
     ("after",
      VDict [("metadata",
              VDict [ ("labels", VDict [("environment", VStr "testing")]);
                      ("namespace", VStr "bar") ])]) ]).
Proof. reflexivity. Qed.

Example diff_minimality :
  diff_objects
    [("a", VInt 1); ("b", VDict [("x", VInt 1); ("y", VInt 2)])]
    [("a", VInt 1); ("b", VDict [("x", VInt 1); ("y", VInt 3)])] =
  (false, [ ("before", VDict [("b", VDict [("y", VInt 2)])]);
            ("after", VDict [("b", VDict [("y", VInt 3)])]) ]).
Proof. reflexivity. Qed.

Example diff_added_key :
  diff_objects [("a", VInt 1)] [("a", VInt 1); ("c", VInt 2)] =
  (false, [("before", VDict []); ("after", VDict [("c", VInt 2)])]).
Proof. reflexivity. Qed.

Lemma all2_refl {A : Type} (f : A -> A -> bool) l :
  Forall (fun x => f x x = true) l -> all2 f l l = true.
Proof.
  induction 1 as [ | x l H _ IH ]; simpl; [reflexivity | ].
  now rewrite H, IH.
Qed.

Lemma same_value_refl v : wf_value v = true -> same_value v v = true.
Proof.
  induction v as [ | b | n | s | l IH | d IH ] using value_ind';
    intros W; simpl.
  - reflexivity.
  - apply Bool.eqb_reflx.
  - apply Z.eqb_refl.
  - apply String.eqb_refl.
  - apply all2_refl. simpl in W. rewrite forallb_forall in W.
    rewrite Forall_forall in *. intros x Hx. apply IH; auto.
  - rewrite Nat.eqb_refl. simpl. apply forallb_forall. intros [k x] Hkx.
    simpl. rewrite (In_dict_get k x d (wf_dict_NoDup d W) Hkx).
    pose proof (wf_dict_values d W) as Wv.
    rewrite Forall_forall in IH, Wv.
    exact (IH _ Hkx (Wv _ Hkx)).
Qed.

Lemma filter_none {A : Type} (f : A -> bool) l :
  (forall x, In x l -> f x = false) -> filter f l = [].
Proof.
  induction l as [ | x l IH ]; simpl; intros H; [reflexivity | ].
  rewrite (H x) by now left. apply IH. intros y Hy. apply H. now right.
Qed.

(** A value compared with itself: no side records anything. *)
Lemma diff_value_refl v : wf_value v = true -> diff_value v v = ([], []).
Proof.
  induction v as [ | b | n | s | l _ | d IH ] using value_ind';
    intros W; try reflexivity.
  simpl.
  assert (Hfold : forall items, (forall kv, In kv items -> In kv d) ->
            fold_right (diff_key diff_value d) ([], []) items = ([], [])).
  { induction items as [ | [k x] items IHi ]; intros Hsub; [reflexivity | ].
    simpl. rewrite IHi by (intros kv Hkv; apply Hsub; now right).
    assert (Hkx : In (k, x) d) by (apply Hsub; now left).
    unfold diff_key. simpl fst. simpl snd.
    rewrite (In_dict_get k x d (wf_dict_NoDup d W) Hkx).
    pose proof (wf_dict_values d W) as Wv.
    rewrite Forall_forall in IH, Wv.
    pose proof (Wv _ Hkx) as Wx. simpl in Wx.
    pose proof (IH _ Hkx Wx) as Hx. simpl in Hx.
    destruct x; try (rewrite (same_value_refl _ Wx); reflexivity).
    rewrite Hx. reflexivity. }
  rewrite (Hfold d) by auto. simpl.
  rewrite filter_none; [reflexivity | ].
  intros [k x] Hkx. simpl. apply negb_false_iff. apply mem_key_In.
  unfold keys. apply (in_map fst) in Hkx. exact Hkx.
Qed.

(** C8. Diff is reflexive: for every Document [D], [diff_objects D D] is
    [(true, {})]: the two sides match and the delta is the empty
    structure, without a [before] or an [after] key. *)
Theorem diff_objects_reflexive (D : dict) :
  wf_dict D = true -> diff_objects D D = (true, []).
Proof.
  intros W. unfold diff_objects.
  now rewrite (diff_value_refl (VDict D) W).
Qed.

Lemma diff_objects_reflexive_witness :
  wf_dict pod_definition = true /\
  diff_objects pod_definition pod_definition = (true, []).
Proof.
  split; [reflexivity | ].
  apply (diff_objects_reflexive pod_definition). reflexivity.
Defined.

(* ================================================================== *)
(** ** [sorted_dict] on the object store *)
(* ================================================================== *)

Import Store.

(** *** The store *)

Lemma lookup_lt h a o : lookup h a = Some o -> a < List.length h.
Proof.
  unfold lookup. intros H. apply nth_error_Some. congruence.
Qed.

Lemma lookup_app h ext a o :
  lookup h a = Some o -> lookup (h ++ ext) a = Some o.
Proof.
  intros H. unfold lookup in *. rewrite nth_error_app1; [exact H | ].
  apply nth_error_Some. congruence.
Qed.

Lemma lookup_middle h o ext : lookup (h ++ o :: ext) (List.length h) = Some o.
Proof.
  unfold lookup. rewrite nth_error_app2 by lia.
  now rewrite Nat.sub_diag.
Qed.

Lemma lookup_middle_other h o o' ext a :
  a <> List.length h ->
  lookup (h ++ o' :: ext) a = lookup (h ++ o :: ext) a.
Proof.
  intros N. unfold lookup.
  destruct (Nat.lt_ge_cases a (List.length h)) as [L | G].
  - now rewrite !nth_error_app1.
  - rewrite !nth_error_app2 by lia.
    destruct (a - List.length h) as [ | n ] eqn:E; [lia | reflexivity].
Qed.

Lemma update_middle h o o' ext :
  update (List.length h) o' (h ++ o :: ext) = h ++ o' :: ext.
Proof.
  induction h as [ | x h IH ]; simpl; [reflexivity | ]. now rewrite IH.
Qed.

Lemma setitem_middle h acc ext k v :
  setitem_at (List.length h) k v (h ++ ODict acc :: ext) =
  h ++ ODict (dict_set k v acc) :: ext.
Proof.
  unfold setitem_at. rewrite lookup_middle. apply update_middle.
Qed.

(** *** Relations on lists of items *)

Lemma Forall2_Forall_r {A B : Type} (R1 R2 : A -> B -> Prop) l1 l2 :
  Forall (fun b => forall a, R1 a b -> R2 a b) l2 ->
  Forall2 R1 l1 l2 -> Forall2 R2 l1 l2.
Proof.
  intros HF H2. induction H2 as [ | a b l1 l2 Hab _ IH ]; constructor.
  - inversion HF; subst. auto.
  - apply IH. now inversion HF.
Qed.

Lemma Forall2_items_r {A : Type} (R1 R2 : A -> value -> Prop)
    (items : list (string * A)) (d : dict) :
  Forall (fun kv => forall a, R1 a (snd kv) -> R2 a (snd kv)) d ->
  Forall2 (fun ri kv => fst ri = fst kv /\ R1 (snd ri) (snd kv)) items d ->
  Forall2 (fun ri kv => fst ri = fst kv /\ R2 (snd ri) (snd kv)) items d.
Proof.
  intros HF. apply Forall2_Forall_r.
  eapply Forall_impl; [ | exact HF]. intros kv H ri [E HR]. auto.
Qed.

Lemma Forall2_items_impl {A : Type} (R1 R2 : A -> value -> Prop)
    (items : list (string * A)) (d : dict) :
  (forall a v, R1 a v -> R2 a v) ->
  Forall2 (fun ri kv => fst ri = fst kv /\ R1 (snd ri) (snd kv)) items d ->
  Forall2 (fun ri kv => fst ri = fst kv /\ R2 (snd ri) (snd kv)) items d.
Proof.
  intros HR. apply Forall2_items_r. apply Forall_forall. auto.
Qed.

Lemma Forall2_insert_item {A B : Type} (R : A -> B -> Prop)
    (x : string * A) (y : string * B) l1 l2 :
  fst x = fst y /\ R (snd x) (snd y) ->
  Forall2 (fun a b => fst a = fst b /\ R (snd a) (snd b)) l1 l2 ->
  Forall2 (fun a b => fst a = fst b /\ R (snd a) (snd b))
          (insert_item x l1) (insert_item y l2).
Proof.
  intros Hxy H. induction H as [ | a b l1 l2 Hab Ht IH ]; simpl.
  - constructor; [exact Hxy | constructor].
  - rewrite <- (proj1 Hxy), <- (proj1 Hab).
    destruct (String.leb (fst x) (fst a)).
    + constructor; [exact Hxy | ]. constructor; [exact Hab | exact Ht].
    + constructor; [exact Hab | exact IH].
Qed.

Lemma Forall2_sorted {A B : Type} (R : A -> B -> Prop)
    (l1 : list (string * A)) (l2 : list (string * B)) :
  Forall2 (fun a b => fst a = fst b /\ R (snd a) (snd b)) l1 l2 ->
  Forall2 (fun a b => fst a = fst b /\ R (snd a) (snd b))
          (sorted l1) (sorted l2).
Proof.
  induction 1 as [ | a b l1 l2 Hab _ IH ]; simpl; [constructor | ].
  now apply Forall2_insert_item.
Qed.

Lemma Forall2_dict_set {A B : Type} (R : A -> B -> Prop) k a b
    (l1 : list (string * A)) (l2 : list (string * B)) :
  R a b ->
  Forall2 (fun x y => fst x = fst y /\ R (snd x) (snd y)) l1 l2 ->
  Forall2 (fun x y => fst x = fst y /\ R (snd x) (snd y))
          (dict_set k a l1) (dict_set k b l2).
Proof.
  intros Hab H. induction H as [ | [k1 x] [k2 y] l1 l2 [E Hxy] Ht IH ]; simpl.
  - constructor; [now split | constructor].
  - simpl in E. subst k2. destruct (String.eqb k1 k).
    + constructor; [now split | exact Ht].
    + constructor; [now split | exact IH].
Qed.

(** *** [repr] and [built] when the store changes elsewhere *)

(** After an inversion: put the premise on the items, or on the
    representation of a sequence, back in the goal. *)
Ltac revert_items :=
  match goal with F : Forall2 _ _ _ |- _ => revert F end.

Ltac revert_repr :=
  match goal with F : repr _ _ _ _ |- _ => revert F end.

Lemma repr_stable P h h2 :
  (forall a o, P a -> lookup h a = Some o -> lookup h2 a = Some o) ->
  forall v r, repr P h r v -> repr P h2 r v.
Proof.
  intros Hag.
  induction v as [ | b | n | s | l IH | d IH ] using value_ind';
    intros r H; inversion H; subst; try constructor.
  - apply repr_list with (elems := elems); auto.
    revert_items.
    apply Forall2_Forall_r. exact IH.
  - apply repr_dict with (items := items); auto.
    revert_items.
    apply Forall2_items_r. exact IH.
Qed.

Lemma repr_weaken (P Q : addr -> Prop) h :
  (forall a o, P a -> lookup h a = Some o -> Q a) ->
  forall v r, repr P h r v -> repr Q h r v.
Proof.
  intros HPQ.
  induction v as [ | b | n | s | l IH | d IH ] using value_ind';
    intros r H; inversion H; subst; try constructor.
  - apply repr_list with (elems := elems); eauto.
    revert_items.
    apply Forall2_Forall_r. exact IH.
  - apply repr_dict with (items := items); eauto.
    revert_items.
    apply Forall2_items_r. exact IH.
Qed.

Lemma represents_below h v r :
  represents h r v -> repr (below (List.length h)) h r v.
Proof.
  apply repr_weaken. intros a o _ H. exact (lookup_lt _ _ _ H).
Qed.

Lemma built_stable lo hi h h2 :
  (forall a o, a < lo \/ hi <= a ->
               lookup h a = Some o -> lookup h2 a = Some o) ->
  forall v r, built lo hi h r v -> built lo hi h2 r v.
Proof.
  intros Hag.
  induction v as [ | b | n | s | l _ | d IH ] using value_ind';
    intros r H; inversion H; subst; try constructor.
  - revert_repr.
    apply repr_stable. intros a0 o L. apply Hag. now left.
  - apply built_dict with (items := items); auto.
    revert_items.
    apply Forall2_items_r. exact IH.
Qed.

Lemma built_weaken lo hi hi' h :
  hi' <= hi -> forall v r, built lo hi h r v -> built lo hi' h r v.
Proof.
  intros Hle.
  induction v as [ | b | n | s | l _ | d IH ] using value_ind';
    intros r H; inversion H; subst; try constructor; auto.
  apply built_dict with (items := items); [lia | assumption | ].
  revert_items.
    apply Forall2_items_r. exact IH.
Qed.

(** A built structure is a representation of its value. *)
Lemma built_represents lo hi h v :
  forall r, built lo hi h r v -> represents h r v.
Proof.
  unfold represents.
  induction v as [ | b | n | s | l _ | d IH ] using value_ind';
    intros r H; inversion H; subst; try constructor; auto.
  - revert_repr.
    apply repr_weaken. auto.
  - apply repr_dict with (items := items); auto.
    revert_items.
    apply Forall2_items_r. exact IH.
Qed.

(** *** The loop and the recursion *)

Lemma depth_item k x (d : dict) n :
  depth (VDict d) <= S n -> In (k, x) d -> depth x <= n.
Proof.
  simpl. intros H HI. apply le_S_n in H. revert H.
  induction d as [ | [k0 x0] d IH ]; simpl in *; [contradiction | ].
  intros H. destruct HI as [E | HI].
  - inversion E; subst. lia.
  - apply IH; [exact HI | lia].
Qed.

(** The loop of lines 38-41, from any point on: [acc] is what [result]
    holds so far, [ext] what was allocated after it. *)
Lemma loop_spec lo h fuel (Hlo : lo <= List.length h) :
  forall todo todo_v,
    Forall2 (fun ri kv => fst ri = fst kv /\
                          repr (below lo) h (snd ri) (snd kv)) todo todo_v ->
    Forall (fun kv => call_spec (snd kv)) todo_v ->
    Forall (fun kv => depth (snd kv) <= fuel) todo_v ->
    forall acc acc_v ext,
      Forall2 (fun ri kv => fst ri = fst kv /\
                 built lo (S (List.length h)) (h ++ ODict acc :: ext)
                       (snd ri) (snd kv)) acc acc_v ->
      exists acc' ext',
        fold_left (loop_body (sorted_dict_at fuel) (List.length h)) todo
                  (Some (h ++ ODict acc :: ext)) =
          Some (h ++ ODict acc' :: ext') /\
        Forall2 (fun ri kv => fst ri = fst kv /\
                   built lo (S (List.length h)) (h ++ ODict acc' :: ext')
                         (snd ri) (snd kv))
                acc' (assign_all (map_values sorted_value todo_v) acc_v).
Proof.
  induction 1 as [ | [k rv] [k' x] todo todo_v [E Hr] _ IH ];
    intros Hspec Hdepth acc acc_v ext Hacc.
  - exists acc, ext. split; [reflexivity | exact Hacc].
  - simpl in E, Hr. subst k'.
    inversion Hspec as [ | ? ? Hx Hspec' ]; subst.
    inversion Hdepth as [ | ? ? Dx Hdepth' ]; subst. simpl in Hx, Dx.
    set (hc := h ++ ODict acc :: ext).
    assert (Lc : S (List.length h) <= List.length hc)
      by (unfold hc; rewrite length_app; simpl; lia).
    destruct (Hx lo hc rv fuel) as [r' [ext2 [Hconv Hb]]];
      [lia | | exact Dx | ].
    { revert Hr. apply repr_stable. intros a o _ L.
      unfold hc. now apply lookup_app. }
    simpl fold_left. fold hc. rewrite Hconv.
    assert (Eh : hc ++ ext2 = h ++ ODict acc :: (ext ++ ext2)).
    { unfold hc. rewrite <- app_assoc. reflexivity. }
    rewrite Eh, setitem_middle.
    simpl map_values. rewrite assign_all_cons. simpl fst. simpl snd.
    apply IH; [exact Hspec' | exact Hdepth' | ].
    apply Forall2_dict_set.
    + apply (built_weaken lo (List.length hc) (S (List.length h))) in Hb;
        [ | exact Lc].
      revert Hb. apply built_stable. intros a o Ha L. rewrite Eh in L.
      rewrite <- L. apply lookup_middle_other. unfold below in *. lia.
    + revert Hacc. apply Forall2_items_impl. intros rv0 v0.
      apply built_stable. intros a o Ha L.
      rewrite (lookup_middle_other h (ODict acc)) by lia.
      rewrite app_comm_cons, app_assoc. now apply lookup_app.
Qed.

Lemma convert_spec v : call_spec v.
Proof.
  induction v as [ | b | n | s | l _ | d IH ] using value_ind';
    intros lo h r fuel Hlo Hr Hd; inversion Hr; subst.
  - exists RNone, []. rewrite app_nil_r. split; [reflexivity | constructor].
  - exists (RBool b), []. rewrite app_nil_r.
    split; [reflexivity | constructor].
  - exists (RInt n), []. rewrite app_nil_r.
    split; [reflexivity | constructor].
  - exists (RStr s), []. rewrite app_nil_r.
    split; [reflexivity | constructor].
  - exists (RObj a), []. rewrite app_nil_r. split.
    + unfold convert, is_dict.
      match goal with L : lookup h a = _ |- _ => now rewrite L end.
    + now constructor.
  - match goal with
    | L : lookup h a = _, F : Forall2 _ _ _ |- _ =>
        rename L into Hl; rename F into Hitems
    end.
    destruct fuel as [ | fuel ]; [simpl in Hd; lia | ].
    destruct (loop_spec lo h fuel Hlo (sorted items) (sorted d))
      with (acc := @nil (string * ref)) (acc_v := @nil (string * value))
           (ext := @nil obj)
      as [acc' [ext' [Hfold Hacc]]].
    + now apply Forall2_sorted.
    + eapply Permutation_Forall;
        [apply Permutation_sym; apply sorted_perm | exact IH].
    + eapply Permutation_Forall;
        [apply Permutation_sym; apply sorted_perm | ].
      apply Forall_forall. intros [k x] Hkx. simpl.
      exact (depth_item k x d fuel Hd Hkx).
    + constructor.
    + exists (RObj (List.length h)), (ODict acc' :: ext'). split.
      * unfold convert, is_dict. rewrite Hl. simpl. rewrite Hl.
        now rewrite Hfold.
      * rewrite sorted_value_dict. unfold sorted_dict.
        rewrite sorted_map_values.
        apply built_dict with (items := acc');
          [lia | apply lookup_middle | ].
        revert Hacc. apply Forall2_items_impl. intros rv0 v0.
        apply built_weaken. lia.
Qed.

(** The result is the first object allocated by the call. *)
Lemma sorted_dict_at_result fuel a h r h' :
  sorted_dict_at fuel a h = Some (r, h') -> r = List.length h.
Proof.
  destruct fuel as [ | fuel ]; simpl; [discriminate | ].
  destruct (lookup h a) as [[elems | items] | ]; try discriminate.
  destruct (fold_left _ _ _); [ | discriminate].
  now intros [= <- _].
Qed.

(** *** The frame, for every call that returns

    Whatever the store looks like (objects may be shared between dicts),
    a call that returns has only added objects. *)

Lemma loop_none rec result todo :
  fold_left (loop_body rec result) todo None = None.
Proof. induction todo as [ | kv todo IH ]; simpl; [reflexivity | exact IH]. Qed.

Lemma loop_frame rec (h : heap) :
  (forall a hc r h', rec a hc = Some (r, h') -> exists ext, h' = hc ++ ext) ->
  forall todo acc ext hfin,
    fold_left (loop_body rec (List.length h)) todo
              (Some (h ++ ODict acc :: ext)) = Some hfin ->
    exists acc' ext', hfin = h ++ ODict acc' :: ext'.
Proof.
  intros Hrec. induction todo as [ | [k v] todo IH ]; intros acc ext hfin H.
  - injection H as <-. now exists acc, ext.
  - simpl in H. unfold convert in H.
    destruct (is_dict (h ++ ODict acc :: ext) v).
    + destruct v as [ | | | | a ]; try (rewrite loop_none in H; discriminate).
      destruct (rec a (h ++ ODict acc :: ext)) as [[r h'] | ] eqn:E;
        [ | rewrite loop_none in H; discriminate].
      destruct (Hrec _ _ _ _ E) as [ext2 ->].
      rewrite <- app_assoc in H. simpl in H.
      rewrite setitem_middle in H. exact (IH _ _ _ H).
    + rewrite setitem_middle in H. exact (IH _ _ _ H).
Qed.

Lemma sorted_dict_at_frame fuel :
  forall a h r h',
    sorted_dict_at fuel a h = Some (r, h') -> exists ext, h' = h ++ ext.
Proof.
  induction fuel as [ | fuel IH ]; intros a h r h' H; [discriminate | ].
  simpl in H. destruct (lookup h a) as [[elems | items] | ]; try discriminate.
  destruct (fold_left _ _ _) as [hfin | ] eqn:E; [ | discriminate].
  injection H as _ <-.
  destruct (loop_frame (sorted_dict_at fuel) h IH _ _ _ _ E)
    as [acc' [ext' ->]].
  now exists (ODict acc' :: ext').
Qed.

(** *** An example run *)

Example sorted_dict_at_example :
  sorted_dict_at 2 0 example_heap =
  Some (3, example_heap ++
           [ ODict [("a", RInt 1); ("b", RObj 4)];
             ODict [("x", RObj 2); ("y", RInt 2)] ]).
Proof. reflexivity. Qed.

Lemma example_represents :
  represents example_heap (RObj 0) (VDict example_value).
Proof.
  unfold represents.
  apply repr_dict with (items := [("b", RObj 1); ("a", RInt 1)]);
    [exact I | reflexivity | ].
  constructor; [split; [reflexivity | ] | ].
  - apply repr_dict with (items := [("y", RInt 2); ("x", RObj 2)]);
      [exact I | reflexivity | ].
    constructor; [split; [reflexivity | constructor] | ].
    constructor; [split; [reflexivity | ] | constructor].
    apply repr_list with (elems := [RInt 3]); [exact I | reflexivity | ].
    constructor; [constructor | constructor].
  - constructor; [split; [reflexivity | constructor] | constructor].
Qed.

(** The store of the counterexample holds [sequence_value]. *)
Lemma sequence_represents :
  represents sequence_heap (RObj 0) (VDict sequence_value).
Proof.
  unfold represents.
  apply repr_dict with (items := [("l", RObj 1)]);
    [exact I | reflexivity | ].
  constructor; [split; [reflexivity | ] | constructor].
  apply repr_list with (elems := [RObj 2]); [exact I | reflexivity | ].
  constructor; [ | constructor].
  apply repr_dict with (items := [("x", RInt 1)]);
    [exact I | reflexivity | ].
  constructor; [split; [reflexivity | constructor] | constructor].
Qed.

(** C10, as the claim states it, fails: the result shares a mapping with
    the argument.  On [{"l": [{"x": 1}]}] the call returns a new dict at
    address 3 whose item [l] is the list object of the argument, address
    1 (line 39 tests for a dict only, line 41 stores the list itself); the
    element of that list is the dict of the argument at address 2, so the
    argument and the result both lead to it. *)
Lemma sorted_dict_shares_mapping_in_sequence :
  represents sequence_heap (RObj 0) (VDict sequence_value) /\
  depth (VDict sequence_value) <= 1 /\
  exists h',
    sorted_dict_at 1 0 sequence_heap = Some (3, h') /\
    lookup h' 0 = Some (ODict [("l", RObj 1)]) /\
    lookup h' 3 = Some (ODict [("l", RObj 1)]) /\
    lookup h' 1 = Some (OList [RObj 2]) /\
    lookup h' 2 = Some (ODict [("x", RInt 1)]) /\
    reaches h' (RObj 0) 2 /\
    reaches h' (RObj 3) 2 /\
    is_dict h' (RObj 2) = true /\
    ~ shares_no_mapping h' (RObj 0) (RObj 3).
Proof.
  split; [exact sequence_represents | ]. split; [simpl; lia | ].
  exists (sequence_heap ++ [ODict [("l", RObj 1)]]).
  assert (R0 : reaches (sequence_heap ++ [ODict [("l", RObj 1)]])
                       (RObj 0) 2).
  { apply reaches_value with (items := [("l", RObj 1)]) (kv := ("l", RObj 1));
      [reflexivity | now left | ].
    apply reaches_element with (elems := [RObj 2]) (r := RObj 2);
      [reflexivity | now left | ].
    apply reaches_object. }
  assert (R3 : reaches (sequence_heap ++ [ODict [("l", RObj 1)]])
                       (RObj 3) 2).
  { apply reaches_value with (items := [("l", RObj 1)]) (kv := ("l", RObj 1));
      [reflexivity | now left | ].
    apply reaches_element with (elems := [RObj 2]) (r := RObj 2);
      [reflexivity | now left | ].
    apply reaches_object. }
  repeat (split; [reflexivity | ]).
  split; [exact R0 | ]. split; [exact R3 | ]. split; [reflexivity | ].
  intros H. specialize (H 2 R0 R3). discriminate H.
Qed.

(** C10, amended.  [sorted_dict] does not change its argument, and the
    mappings of its result are newly built.  On a store [h] that holds the
    Document [d] at address [a], with fuel for the nesting depth of [d],
    the call returns; every object of [h], so [d] and all that [d]
    reaches, is in the store afterwards as it was, and [a] still holds
    [d]; the result is at an address [h] did not have and holds
    [sorted_dict d]; every mapping of the result that is reached through
    mappings only is an object [h] did not have; a sequence of the result
    is an object of [h], shared with the argument together with all it
    holds, the mappings inside it included ([built]). *)
Theorem sorted_dict_leaves_argument (h : heap) (a : addr) (d : dict)
    (fuel : nat) :
  represents h (RObj a) (VDict d) ->
  depth (VDict d) <= fuel ->
  exists ext,
    sorted_dict_at fuel a h = Some (List.length h, h ++ ext) /\
    (forall b o, lookup h b = Some o -> lookup (h ++ ext) b = Some o) /\
    represents (h ++ ext) (RObj a) (VDict d) /\
    represents (h ++ ext) (RObj (List.length h)) (VDict (sorted_dict d)) /\
    built (List.length h) (List.length h) (h ++ ext)
          (RObj (List.length h)) (VDict (sorted_dict d)).
Proof.
  intros Hr Hd.
  destruct (convert_spec (VDict d) (List.length h) h (RObj a) fuel)
    as [r' [ext [Hconv Hb]]];
    [lia | now apply represents_below | exact Hd | ].
  exists ext.
  assert (Hdict : is_dict h (RObj a) = true).
  { unfold represents in Hr. inversion Hr; subst. unfold is_dict.
    match goal with L : lookup h a = _ |- _ => now rewrite L end. }
  unfold convert in Hconv. rewrite Hdict in Hconv.
  destruct (sorted_dict_at fuel a h) as [[r0 h0] | ] eqn:Hrun;
    [ | discriminate].
  injection Hconv as Er Eh. subst r' h0.
  pose proof (sorted_dict_at_result _ _ _ _ _ Hrun) as ->.
  rewrite sorted_value_dict in Hb.
  split; [reflexivity | ]. split; [ | split; [ | split] ].
  - intros b o. apply lookup_app.
  - revert Hr. apply repr_stable. intros b o _. apply lookup_app.
  - exact (built_represents _ _ _ _ _ Hb).
  - exact Hb.
Qed.

Lemma sorted_dict_leaves_argument_witness :
  represents example_heap (RObj 0) (VDict example_value) /\
  depth (VDict example_value) <= 2 /\
  exists ext,
    sorted_dict_at 2 0 example_heap =
      Some (List.length example_heap, example_heap ++ ext) /\
    (forall b o, lookup example_heap b = Some o ->
                 lookup (example_heap ++ ext) b = Some o) /\
    represents (example_heap ++ ext) (RObj 0) (VDict example_value) /\
    represents (example_heap ++ ext) (RObj (List.length example_heap))
               (VDict (sorted_dict example_value)) /\
    built (List.length example_heap) (List.length example_heap)
          (example_heap ++ ext)
          (RObj (List.length example_heap))
          (VDict (sorted_dict example_value)).
Proof.
  split; [exact example_represents | ]. split; [simpl; lia | ].
  apply (sorted_dict_leaves_argument example_heap 0 example_value 2);
    [exact example_represents | simpl; lia].
Defined.

(* ================================================================== *)
(** * Part III. Further properties of the code *)
(* ================================================================== *)

(** ** [sorted_dict] *)

(** X1. The result of [sorted_dict] has its keys in strictly ascending
    order, and so has every mapping in it that is reached through mappings;
    this holds for every input. *)
Theorem sorted_dict_canonical (d : dict) :
  ascending (keys (sorted_dict d)) /\ canonical (VDict (sorted_dict d)).
Proof.
  split; [apply sorted_dict_ascending | ].
  exact (sorted_value_canonical (VDict d)).
Qed.

(** X2. [sorted_dict] forgets the insertion order: two dicts that differ
    only in the order of the keys of mappings (outside sequences) have the
    same result, item for item. *)
Theorem sorted_dict_order_independent (d1 d2 : dict) :
  wf_dict d1 = true ->
  key_reorder false (VDict d1) (VDict d2) ->
  sorted_dict d1 = sorted_dict d2.
Proof.
  intros W HR. pose proof (key_reorder_sorted_value _ _ HR W) as H.
  rewrite !sorted_value_dict in H. now injection H.
Qed.

Lemma sorted_dict_order_independent_witness :
  wf_dict configmap_ab = true /\
  key_reorder false (VDict configmap_ab) (VDict configmap_ba) /\
  sorted_dict configmap_ab = sorted_dict configmap_ba.
Proof.
  split; [reflexivity | ]. split; [exact configmap_ab_ba_reorder | ].
  apply (sorted_dict_order_independent configmap_ab configmap_ba);
    [reflexivity | exact configmap_ab_ba_reorder].
Defined.

Lemma configmap_ba_sorted_reorder :
  key_reorder false (VDict configmap_ba) (VDict configmap_sorted).
Proof.
  apply kr_dict with
    (d := [ ("data", VDict [("b", VStr "2"); ("a", VStr "1")]);
            ("kind", VStr "ConfigMap");
            ("metadata",
             VDict [("namespace", VStr "d"); ("name", VStr "n")]) ]).
  - apply perm_skip. apply perm_swap.
  - constructor; [ | constructor; [apply kr_same | constructor] ].
    + apply kr_dict with (d := [("a", VStr "1"); ("b", VStr "2")]);
        [apply perm_swap | apply items_reorder_refl].
    + apply kr_dict with
        (d := [("name", VStr "n"); ("namespace", VStr "d")]);
        [apply perm_swap | apply items_reorder_refl].
    + constructor.
Qed.

Lemma configmap_sorted_canonical : canonical (VDict configmap_sorted).
Proof.
  simpl. unfold ascending, key_lt.
  repeat (split || constructor); reflexivity.
Qed.

(** X3. [sorted_dict d] is the only rearrangement of [d] in canonical form:
    a dict that differs from [d] only in the order of the keys of mappings
    and has ascending keys at every mapping level is [sorted_dict d]. *)
Theorem sorted_dict_unique (d d' : dict) :
  wf_dict d = true ->
  key_reorder false (VDict d) (VDict d') ->
  canonical (VDict d') ->
  d' = sorted_dict d.
Proof.
  intros W HR HC. pose proof (key_reorder_sorted_value _ _ HR W) as H.
  rewrite (canonical_fixed _ HC), sorted_value_dict in H. now injection H.
Qed.

Lemma sorted_dict_unique_witness :
  wf_dict configmap_ba = true /\
  key_reorder false (VDict configmap_ba) (VDict configmap_sorted) /\
  canonical (VDict configmap_sorted) /\
  configmap_sorted = sorted_dict configmap_ba.
Proof.
  split; [reflexivity | ]. split; [exact configmap_ba_sorted_reorder | ].
  split; [exact configmap_sorted_canonical | ].
  apply (sorted_dict_unique configmap_ba configmap_sorted);
    [reflexivity | exact configmap_ba_sorted_reorder
     | exact configmap_sorted_canonical].
Defined.

(** ** [marshal] *)

(** X4. [marshal] serialises one item per key of [keys], in the order of
    [keys], whatever the order of the items of [data] is; the value is the
    one [data] holds under the key, the empty string when it holds none. *)
Theorem marshal_ordered (data : dict) (ks : list string) :
  NoDup ks ->
  marshal data ks =
  utf8_encode
    (json_dumps
       (VDict (map (fun k => (k, dict_get_default k (VStr EmptyString) data))
                   ks))).
Proof.
  intros ND. unfold marshal. do 3 f_equal.
  rewrite fold_assign, (assign_all_fresh _ []); [reflexivity | ].
  simpl. rewrite map_map. simpl. now rewrite map_id.
Qed.

Lemma marshal_ordered_witness :
  NoDup ["data"; "kind"; "name"] /\
  marshal configmap_ba ["data"; "kind"; "name"] =
  utf8_encode
    (json_dumps
       (VDict (map (fun k => (k, dict_get_default k (VStr EmptyString)
                                                  configmap_ba))
                   ["data"; "kind"; "name"]))).
Proof.
  assert (ND : NoDup ["data"; "kind"; "name"]).
  { repeat constructor; simpl; intuition discriminate. }
  split; [exact ND | ].
  exact (marshal_ordered configmap_ba ["data"; "kind"; "name"] ND).
Defined.

(** X5. The result of [marshal] depends on [data] only through
    [data.get(key, "")] for the keys given: items under other keys do not
    count, and a key that is missing counts as one that holds the empty
    string. *)
Theorem marshal_depends_on_keys (d1 d2 : dict) (ks : list string) :
  (forall k, In k ks ->
     dict_get_default k (VStr EmptyString) d1 =
     dict_get_default k (VStr EmptyString) d2) ->
  marshal d1 ks = marshal d2 ks.
Proof.
  intros H. unfold marshal. do 3 f_equal. rewrite !fold_assign. f_equal.
  apply map_ext_in. intros k Hk. now rewrite (H k Hk).
Qed.

Lemma marshal_depends_on_keys_witness :
  (forall k, In k ["data"; "kind"; "name"] ->
     dict_get_default k (VStr EmptyString) configmap_bare =
     dict_get_default k (VStr EmptyString) configmap_empty_fields) /\
  marshal configmap_bare ["data"; "kind"; "name"] =
  marshal configmap_empty_fields ["data"; "kind"; "name"].
Proof.
  assert (H : forall k, In k ["data"; "kind"; "name"] ->
     dict_get_default k (VStr EmptyString) configmap_bare =
     dict_get_default k (VStr EmptyString) configmap_empty_fields).
  { intros k [<- | [<- | [<- | []]]]; reflexivity. }
  split; [exact H | ].
  exact (marshal_depends_on_keys configmap_bare configmap_empty_fields
           ["data"; "kind"; "name"] H).
Defined.

(** *** The text of [json.dumps] is ASCII *)

Lemma list_ascii_of_string_app s1 s2 :
  list_ascii_of_string (s1 ++ s2) =
  list_ascii_of_string s1 ++ list_ascii_of_string s2.
Proof. induction s1 as [ | c s1 IH ]; simpl; [reflexivity | now rewrite IH]. Qed.

Lemma ascii_text_app s1 s2 :
  ascii_text s1 = true -> ascii_text s2 = true ->
  ascii_text (s1 ++ s2) = true.
Proof.
  unfold ascii_text. intros H1 H2.
  now rewrite list_ascii_of_string_app, forallb_app, H1, H2.
Qed.

Lemma ascii_text_concat sep l :
  ascii_text sep = true -> Forall (fun s => ascii_text s = true) l ->
  ascii_text (String.concat sep l) = true.
Proof.
  intros Hs. induction 1 as [ | s l H Hl IH ]; [reflexivity | ].
  simpl. destruct l as [ | s' l ]; [exact H | ].
  apply ascii_text_app; [exact H | ]. apply ascii_text_app; [exact Hs | ].
  exact IH.
Qed.

Lemma ascii_text_uint d : ascii_text (NilEmpty.string_of_uint d) = true.
Proof. induction d; simpl; try reflexivity; exact IHd. Qed.

Lemma ascii_text_int n : ascii_text (NilZero.string_of_int n) = true.
Proof.
  destruct n as [d | d]; simpl.
  - destruct d; try reflexivity; apply (ascii_text_uint (_ d)).
  - change (ascii_text (NilZero.string_of_uint d) = true).
    destruct d; try reflexivity; apply (ascii_text_uint (_ d)).
Qed.

Lemma ascii_text_escape_char c : ascii_text (escape_char c) = true.
Proof. destruct c as [[] [] [] [] [] [] [] []]; reflexivity. Qed.

Lemma ascii_text_basestring s :
  ascii_text (encode_basestring_ascii s) = true.
Proof.
  unfold encode_basestring_ascii.
  apply ascii_text_app; [reflexivity | ].
  apply ascii_text_app; [ | reflexivity].
  induction s as [ | c s IH ]; simpl; [reflexivity | ].
  apply ascii_text_app; [apply ascii_text_escape_char | exact IH].
Qed.

Lemma json_dumps_list l :
  json_dumps (VList l) =
  ("[" ++ String.concat "," (map json_dumps l) ++ "]")%string.
Proof. reflexivity. Qed.

Lemma json_dumps_dict d :
  json_dumps (VDict d) =
  ("{" ++ String.concat ","
            (map (fun kv => encode_basestring_ascii (fst kv) ++ ":"
                            ++ json_dumps (snd kv))%string d) ++ "}")%string.
Proof. reflexivity. Qed.

Lemma ascii_text_json v : ascii_text (json_dumps v) = true.
Proof.
  induction v as [ | b | n | s | l IH | d IH ] using value_ind'.
  - reflexivity.
  - destruct b; reflexivity.
  - apply ascii_text_int.
  - apply ascii_text_basestring.
  - rewrite json_dumps_list.
    apply ascii_text_app; [reflexivity | ].
    apply ascii_text_app; [ | reflexivity].
    apply ascii_text_concat; [reflexivity | ].
    apply Forall_map. exact IH.
  - rewrite json_dumps_dict.
    apply ascii_text_app; [reflexivity | ].
    apply ascii_text_app; [ | reflexivity].
    apply ascii_text_concat; [reflexivity | ].
    apply Forall_map. eapply Forall_impl; [ | exact IH].
    intros kv H. apply ascii_text_app; [apply ascii_text_basestring | ].
    apply ascii_text_app; [reflexivity | exact H].
Qed.

Lemma utf8_encode_ascii s :
  ascii_text s = true ->
  utf8_encode s = bytes_of_ascii_string s.
Proof.
  unfold ascii_text, utf8_encode, bytes_of_ascii_string.
  induction (list_ascii_of_string s) as [ | c l IH ]; simpl;
    [reflexivity | ].
  rewrite andb_true_iff. intros [Hc Hl]. rewrite (IH Hl).
  unfold utf8_char, ascii7 in *. apply N.ltb_lt in Hc.
  destruct (Z.ltb_spec (Z.of_N (N_of_ascii c)) 128) as [ | G];
    [reflexivity | lia].
Qed.

(** X6. The bytes [marshal] returns are ASCII: [json.dumps] escapes every
    character outside the printable ASCII range, so [encode('utf-8')] maps
    each character of the text to the one byte of the same number.  The
    bytes are all below 128 and as many as the text has characters. *)
Theorem marshal_ascii (data : dict) (ks : list string) :
  Forall (fun b => (0 <= b < 128)%Z) (marshal data ks) /\
  exists text,
    ascii_text text = true /\
    marshal data ks = bytes_of_ascii_string text /\
    List.length (marshal data ks) = String.length text.
Proof.
  unfold marshal. cbv zeta.
  set (text := json_dumps _).
  pose proof (ascii_text_json (VDict
    (fold_left (fun ordered key =>
       dict_set key (dict_get_default key (VStr EmptyString) data) ordered)
       ks []))) as Ht.
  fold text in Ht. rewrite (utf8_encode_ascii text Ht).
  assert (Hb : Forall (fun b => (0 <= b < 128)%Z)
                      (bytes_of_ascii_string text)).
  { unfold ascii_text in Ht. unfold bytes_of_ascii_string.
    apply Forall_map. apply Forall_forall. intros c Hc.
    rewrite forallb_forall in Ht. specialize (Ht c Hc).
    unfold ascii7 in Ht. apply N.ltb_lt in Ht. lia. }
  split; [exact Hb | ]. exists text. split; [exact Ht | ].
  split; [reflexivity | ].
  unfold bytes_of_ascii_string. rewrite length_map. clear.
  induction text as [ | c t IH ]; simpl; congruence.
Qed.

(** ** [encode] *)

Lemma hex_digit_hex n : char_in "0123456789abcdef" (Sha256.hex_digit n) = true.
Proof.
  unfold Sha256.hex_digit.
  generalize (Z.to_nat (n mod 16)) as i. intros i.
  do 16 (destruct i as [ | i ]; [reflexivity | ]).
  destruct i; reflexivity.
Qed.

Lemma hexdigest_hex bs :
  Forall (fun c => char_in "0123456789abcdef" c = true)
         (list_ascii_of_string (Sha256.hexdigest bs)).
Proof.
  unfold Sha256.hexdigest. rewrite list_ascii_of_string_of_list_ascii.
  generalize (Sha256.digest bs) as l.
  induction l as [ | b l IH ]; simpl; [constructor | ].
  constructor; [apply hex_digit_hex | ].
  constructor; [apply hex_digit_hex | exact IH].
Qed.

Lemma substitute_alphabet c :
  char_in "0123456789abcdef" c = true ->
  char_in "2456789bcdfghkmt" (substitute c) = true.
Proof.
  destruct c as [[] [] [] [] [] [] [] []]; intros H;
    try reflexivity; discriminate H.
Qed.

Lemma Forall_firstn {A : Type} (P : A -> Prop) n l :
  Forall P l -> Forall P (firstn n l).
Proof.
  intros H. revert n. induction H as [ | x l Hx _ IH ]; intros [ | n ];
    simpl; constructor; auto.
Qed.

(** X7. [encode] returns 10 characters out of [2456789bcdfghkmt], for
    every input: the characters 0, 1, 3, a and e do not occur in a hash. *)
Theorem encode_alphabet (resource : list Z) :
  String.length (encode resource) = 10%nat /\
  Forall (fun c => char_in "2456789bcdfghkmt" c = true)
         (list_ascii_of_string (encode resource)).
Proof.
  rewrite encode_spec. split.
  - rewrite length_string_of_list_ascii, length_map, length_firstn.
    now rewrite hexdigest_length.
  - rewrite list_ascii_of_string_of_list_ascii. apply Forall_map.
    eapply Forall_impl; [exact substitute_alphabet | ].
    apply Forall_firstn. apply hexdigest_hex.
Qed.

Lemma translate_back c :
  char_in "0123456789abcdef" c = true ->
  match table_get (substitute c) (maketrans "ghkmt" "013ae") with
  | Some b => b
  | None => substitute c
  end = c.
Proof.
  destruct c as [[] [] [] [] [] [] [] []]; intros H;
    try reflexivity; discriminate H.
Qed.

Lemma encode_back (bs : list Z) :
  translate (maketrans "ghkmt" "013ae") (encode bs) =
  substring 0 10 (Sha256.hexdigest bs).
Proof.
  rewrite encode_spec.
  rewrite <- (string_of_list_ascii_of_string
                (substring 0 10 (Sha256.hexdigest bs))).
  rewrite substring_firstn.
  pose proof (Forall_firstn _ 10 _ (hexdigest_hex bs)) as H.
  induction H as [ | c l Hc _ IH ]; [reflexivity | ].
  cbn [map string_of_list_ascii translate].
  now rewrite IH, (translate_back c Hc).
Qed.

(** X8. The substitution of [encode] loses nothing: translating a hash
    with the reverse table gives back the first 10 characters of the
    hexadecimal digest, so two inputs have the same hash only when their
    digests agree on these 10 characters. *)
Theorem encode_reversible (resource : list Z) :
  translate (maketrans "ghkmt" "013ae") (encode resource) =
  substring 0 10 (Sha256.hexdigest resource).
Proof.
  rewrite encode_spec.
  rewrite <- (string_of_list_ascii_of_string
                (substring 0 10 (Sha256.hexdigest resource))).
  rewrite substring_firstn.
  pose proof (Forall_firstn _ 10 _ (hexdigest_hex resource)) as H.
  induction H as [ | c l Hc _ IH ]; [reflexivity | ].
  cbn [map string_of_list_ascii translate].
  now rewrite IH, (translate_back c Hc).
Qed.

(** ** [generate_hash] *)

Lemma metadata_not_mapping d :
  metadata_is_mapping d = false <->
  exists v, dict_get "metadata" d = Some v /\ forall m, v <> VDict m.
Proof.
  unfold metadata_is_mapping. split.
  - destruct (dict_get "metadata" d) as [v | ]; [ | discriminate].
    intros H. exists v. split; [reflexivity | ].
    intros m ->. discriminate.
  - intros [v [-> Hv]]. destruct v; try reflexivity.
    exfalso. exact (Hv _ eq_refl).
Qed.

Lemma marshal_keys_None_iff kind :
  marshal_keys kind = None <->
  kind <> VStr "ConfigMap" /\ kind <> VStr "Secret".
Proof.
  split.
  - intros H. split; intros ->; discriminate H.
  - intros [H1 H2]. now apply marshal_keys_None.
Qed.

(** The four ways a call can end. *)
Lemma generate_hash_cases d :
  (metadata_is_mapping d = false /\
   generate_hash d = (Raise AttributeError, d)) \/
  (metadata_is_mapping d = true /\ dict_get "kind" d = None /\
   fst (generate_hash d) = Raise KeyError) \/
  (metadata_is_mapping d = true /\
   exists kind, dict_get "kind" d = Some kind /\ marshal_keys kind = None /\
                fst (generate_hash d) = Raise NotImplementedError) \/
  (metadata_is_mapping d = true /\
   exists kind ks fp, dict_get "kind" d = Some kind /\
                      marshal_keys kind = Some ks /\
                      fst (generate_hash d) = Return fp).
Proof.
  destruct (metadata_is_mapping d) eqn:M.
  - right. rewrite generate_hash_unfold, (lookup_name_document d M).
    cbv zeta. destruct (dict_get "kind" d) as [kind | ].
    + destruct (marshal_keys kind) as [ks | ] eqn:K.
      * right. right. split; [reflexivity | ].
        exists kind, ks. eexists. repeat split; reflexivity || assumption.
      * right. left. split; [reflexivity | ].
        exists kind. repeat split; reflexivity || assumption.
    + left. repeat split; reflexivity.
  - left. split; [reflexivity | ].
    apply metadata_not_mapping in M. destruct M as [v [Hm Hv]].
    exact (generate_hash_metadata_not_mapping d v Hm Hv).
Qed.

(** X9. Which exception means what.  [generate_hash] raises
    AttributeError exactly when [metadata] is there and is not a mapping;
    KeyError exactly when [metadata] is fine and there is no [kind] (the
    [del] of lines 50 and 54 never raises it); NotImplementedError exactly
    when [metadata] is fine and [kind] is there and is neither "ConfigMap"
    nor "Secret". *)
Theorem generate_hash_errors (d : dict) :
  (fst (generate_hash d) = Raise AttributeError <->
     exists v, dict_get "metadata" d = Some v /\ forall m, v <> VDict m) /\
  (fst (generate_hash d) = Raise KeyError <->
     metadata_is_mapping d = true /\ dict_get "kind" d = None) /\
  (fst (generate_hash d) = Raise NotImplementedError <->
     metadata_is_mapping d = true /\
     exists kind, dict_get "kind" d = Some kind /\
                  kind <> VStr "ConfigMap" /\ kind <> VStr "Secret").
Proof.
  rewrite <- metadata_not_mapping.
  destruct (generate_hash_cases d)
    as [[M E] | [[M [K E]] | [[M [kind [K [N E]]]] | [M [kind [ks [fp [K [S E]]]]]]]]];
    rewrite E; simpl; rewrite M.
  - intuition (discriminate || congruence).
  - intuition (try discriminate).
    match goal with H : exists _, _ |- _ => destruct H as [k [H1 _]] end.
    congruence.
  - intuition (try discriminate); try congruence.
    exists kind. split; [exact K | ]. now apply marshal_keys_None_iff.
  - intuition (try discriminate); try congruence.
    match goal with H : exists _, _ |- _ => destruct H as [k [H1 H2]] end.
    rewrite K in H1. injection H1 as <-.
    apply marshal_keys_None_iff in H2. congruence.
Qed.

Lemma without_name_set (d : dict) v :
  without_name (dict_set "name" v d) = without_name d.
Proof.
  induction d as [ | [k0 v0] d IH ]; simpl; [reflexivity | ].
  destruct (String.eqb_spec k0 "name") as [-> | N]; simpl.
  - reflexivity.
  - apply String.eqb_neq in N. rewrite N. simpl. now rewrite IH.
Qed.

Lemma without_name_del (d : dict) :
  without_name match dict_del "name" d with Some r => r | None => d end =
  without_name d.
Proof.
  induction d as [ | [k0 v0] d IH ]; simpl; [reflexivity | ].
  destruct (String.eqb_spec k0 "name") as [-> | N]; simpl.
  - reflexivity.
  - apply String.eqb_neq in N.
    destruct (dict_del "name" d); simpl in *; rewrite N; simpl;
      [now rewrite IH | reflexivity].
Qed.

(** X10. Whatever the outcome, [generate_hash] touches no item of the
    caller's dict other than [name]: the other items are the same, in the
    same order, after the call. *)
Theorem generate_hash_other_items (d : dict) :
  without_name (snd (generate_hash d)) = without_name d.
Proof.
  rewrite generate_hash_unfold.
  destruct (lookup_name d) as [name | e]; [ | reflexivity].
  cbv zeta. destruct (dict_get "kind" d) as [kind | ].
  - destruct (marshal_keys kind); simpl.
    + apply without_name_del.
    + apply without_name_set.
  - apply without_name_set.
Qed.

(** X11. When [generate_hash] returns a hash, the caller's dict has no
    top-level [name] afterwards; if it had none before, it is the very dict
    it was. *)
Theorem generate_hash_state_on_return (d : dict) (fp : string) :
  wf_dict d = true ->
  fst (generate_hash d) = Return fp ->
  dict_get "name" (snd (generate_hash d)) = None /\
  (dict_get "name" d = None -> snd (generate_hash d) = d).
Proof.
  intros W H.
  destruct (generate_hash_cases d)
    as [[M E] | [[M [K E]] | [[M [kind [K [N E]]]] | [M [kind [ks [fp' [K [S E]]]]]]]]];
    try (rewrite E in H; discriminate H).
  rewrite (generate_hash_supported d kind ks (conj W M) K S). simpl.
  pose proof (wf_dict_NoDup d W) as ND.
  destruct (dict_del "name" d) as [r | ] eqn:D.
  - split.
    + apply dict_get_None. exact (dict_del_removes _ _ _ ND D).
    + intros Hn. apply dict_get_None in Hn. apply dict_del_None in Hn.
      congruence.
  - split; [ | reflexivity].
    apply dict_get_None. now apply dict_del_None.
Qed.

Lemma generate_hash_state_on_return_witness :
  wf_dict configmap_named = true /\
  fst (generate_hash configmap_named) = Return "c55cmkg5g6" /\
  (dict_get "name" (snd (generate_hash configmap_named)) = None /\
   (dict_get "name" configmap_named = None ->
    snd (generate_hash configmap_named) = configmap_named)).
Proof.
  split; [reflexivity | ]. split; [vm_compute; reflexivity | ].
  apply (generate_hash_state_on_return configmap_named "c55cmkg5g6");
    [reflexivity | vm_compute; reflexivity].
Defined.

(** X12. When [generate_hash] raises, the caller's dict is as it was if
    the exception is AttributeError; for KeyError and NotImplementedError
    it holds the assignment of line 47: [name] is set to [metadata.name],
    or to the empty string when there is none. *)
Theorem generate_hash_state_on_raise (d : dict) (e : exn) :
  fst (generate_hash d) = Raise e ->
  snd (generate_hash d) =
  match e with
  | AttributeError => d
  | _ => dict_set "name" (or_empty (metadata_name d)) d
  end.
Proof.
  intros H.
  destruct (generate_hash_cases d)
    as [[M E] | [[M [K E]] | [[M [kind [K [N E]]]] | [M [kind [ks [fp' [K [S E]]]]]]]]].
  - rewrite E in H |- *. simpl in H. now injection H as <-.
  - rewrite E in H. injection H as <-.
    rewrite generate_hash_unfold, (lookup_name_document d M), K.
    reflexivity.
  - rewrite E in H. injection H as <-.
    rewrite generate_hash_unfold, (lookup_name_document d M), K.
    cbv zeta. now rewrite N.
  - rewrite E in H. discriminate H.
Qed.

Lemma generate_hash_state_on_raise_witness :
  fst (generate_hash pod_definition) = Raise NotImplementedError /\
  snd (generate_hash pod_definition) =
  dict_set "name" (or_empty (metadata_name pod_definition)) pod_definition.
Proof.
  split; [reflexivity | ].
  apply (generate_hash_state_on_raise pod_definition NotImplementedError).
  reflexivity.
Defined.

(** *** Calling again *)

Lemma dict_set_set {A : Type} k (v : A) d :
  dict_set k v (dict_set k v d) = dict_set k v d.
Proof.
  induction d as [ | [k0 v0] d IH ]; simpl.
  - now rewrite String.eqb_refl.
  - destruct (String.eqb_spec k0 k) as [-> | N]; simpl.
    + now rewrite String.eqb_refl.
    + apply String.eqb_neq in N. now rewrite N, IH.
Qed.

Lemma dict_get_del_other {A : Type} k k' (d r : list (string * A)) :
  dict_del k d = Some r -> k <> k' -> dict_get k' r = dict_get k' d.
Proof.
  revert r. induction d as [ | [k0 v0] d IH ]; simpl; intros r H N;
    [discriminate | ].
  destruct (String.eqb_spec k0 k) as [-> | N0].
  - injection H as <-. apply String.eqb_neq in N. now rewrite N.
  - destruct (dict_del k d) as [r' | ]; [ | discriminate].
    injection H as <-. simpl. destruct (String.eqb k0 k'); [reflexivity | ].
    now apply IH.
Qed.

Lemma dict_del_NoDup {A : Type} k (d r : list (string * A)) :
  dict_del k d = Some r -> NoDup (map fst d) -> NoDup (map fst r).
Proof.
  revert r. induction d as [ | [k0 v0] d IH ]; simpl; intros r H ND;
    [discriminate | ].
  inversion ND as [ | ? ? Hn ND' ]; subst.
  destruct (String.eqb_spec k0 k) as [-> | N0].
  - now injection H as <-.
  - destruct (dict_del k d) as [r' | ] eqn:E; [ | discriminate].
    injection H as <-. simpl. constructor; [ | now apply IH].
    intros HI. apply Hn. apply in_map_iff in HI.
    destruct HI as [[k1 v1] [E1 HI]]. simpl in E1. subst k1.
    apply in_map_iff. exists (k0, v1). split; [reflexivity | ].
    clear - E HI. revert r' E HI.
    induction d as [ | [k2 v2] d IHd ]; simpl; intros r' E HI;
      [discriminate | ].
    destruct (String.eqb k2 k).
    + injection E as <-. now right.
    + destruct (dict_del k d) as [r2 | ]; [ | discriminate].
      injection E as <-. destruct HI as [HI | HI]; [now left | ].
      right. exact (IHd _ eq_refl HI).
Qed.

Lemma marshal_ext (d1 d2 : dict) (ks : list string) :
  (forall k, In k ks ->
     dict_get_default k (VStr EmptyString) d1 =
     dict_get_default k (VStr EmptyString) d2) ->
  marshal d1 ks = marshal d2 ks.
Proof.
  intros H. unfold marshal. do 3 f_equal. rewrite !fold_assign. f_equal.
  apply map_ext_in. intros k Hk. now rewrite (H k Hk).
Qed.

Lemma lookup_name_other (d d' : dict) :
  dict_get "metadata" d' = dict_get "metadata" d ->
  lookup_name d' = lookup_name d.
Proof.
  intros H. unfold lookup_name, dict_get_default. now rewrite H.
Qed.

(** X13. A second call repeats the first: on the dict a call leaves
    behind, [generate_hash] has the same outcome (the same hash or the same
    exception) and leaves the dict as it found it. *)
Theorem generate_hash_again (d : dict) :
  wf_dict d = true ->
  generate_hash (snd (generate_hash d)) = generate_hash d.
Proof.
  intros W. pose proof (wf_dict_NoDup d W) as ND.
  rewrite (generate_hash_unfold d).
  destruct (lookup_name d) as [name | e] eqn:L; simpl.
  2: { rewrite generate_hash_unfold, L. reflexivity. }
  assert (L1 : lookup_name (dict_set "name" name d) = Return name).
  { rewrite <- L. apply lookup_name_other. now rewrite dict_get_set. }
  assert (K1 : dict_get "kind" (dict_set "name" name d) = dict_get "kind" d)
    by now rewrite dict_get_set.
  destruct (dict_get "kind" d) as [kind | ] eqn:K.
  - destruct (marshal_keys kind) as [ks | ] eqn:S; simpl.
    + destruct (dict_del "name" d) as [r | ] eqn:D.
      * assert (Nr : ~ In "name" (map fst r))
          by exact (dict_del_removes _ _ _ ND D).
        rewrite generate_hash_unfold.
        rewrite (lookup_name_other d r), L
          by (apply (dict_get_del_other _ _ _ _ D); discriminate).
        cbv zeta.
        rewrite (dict_get_del_other _ _ _ _ D), K by discriminate.
        rewrite S. apply dict_del_None in Nr. rewrite Nr. f_equal.
        do 2 f_equal. apply marshal_ext. intros k _.
        rewrite (marshal_field r name k (dict_del_NoDup _ _ _ D ND)).
        rewrite (marshal_field d name k ND).
        destruct (String.eqb_spec k "name") as [-> | Nk]; [reflexivity | ].
        rewrite (dict_get_del_other _ _ _ _ D); [reflexivity | ].
        congruence.
      * rewrite generate_hash_unfold, L. cbv zeta. now rewrite K, S, D.
    + rewrite generate_hash_unfold, L1. cbv zeta.
      now rewrite K1, S, dict_set_set.
  - simpl. rewrite generate_hash_unfold, L1. cbv zeta.
    now rewrite K1, dict_set_set.
Qed.

Lemma generate_hash_again_witness :
  wf_dict configmap_named = true /\
  generate_hash (snd (generate_hash configmap_named)) =
  generate_hash configmap_named.
Proof.
  split; [reflexivity | ].
  apply (generate_hash_again configmap_named). reflexivity.
Defined.

(** *** The hash and the canonical form *)

Lemma wf_sorted_value v : wf_value v = true -> wf_value (sorted_value v) = true.
Proof.
  induction v as [ | b | n | s | l _ | d IH ] using value_ind';
    intros W; try exact W.
  rewrite sorted_value_dict. apply wf_dict_intro.
  - apply ascending_NoDup. apply sorted_dict_ascending.
  - apply (sorted_dict_values (fun v => wf_value v = true)).
    pose proof (wf_dict_values d W) as Wv.
    rewrite Forall_forall in *. intros kv Hkv. apply IH; auto.
Qed.

Lemma document_sorted d : Document d -> Document (sorted_dict d).
Proof.
  intros [W M]. split.
  - exact (wf_sorted_value (VDict d) W).
  - unfold metadata_is_mapping in *.
    rewrite (dict_get_sorted_dict "metadata" d (wf_dict_NoDup d W)).
    destruct (dict_get "metadata" d) as [[ | | | | | m] | ];
      try discriminate; reflexivity.
Qed.

Lemma marshal_keys_sorted v : marshal_keys (sorted_value v) = marshal_keys v.
Proof. destruct v; reflexivity. Qed.

(** X14. [generate_hash] and [sorted_dict] compose: on a Document, the
    outcome for the sorted dict is the outcome for the dict itself, the
    same hash or the same exception. *)
Theorem generate_hash_of_sorted (d : dict) :
  Document d ->
  fst (generate_hash (sorted_dict d)) = fst (generate_hash d).
Proof.
  intros D. pose proof (document_sorted d D) as Ds.
  pose proof (wf_dict_NoDup d (proj1 D)) as ND.
  assert (E : sorted_dict (sorted_dict d) = sorted_dict d).
  { pose proof (sorted_value_idempotent (VDict d)) as H.
    rewrite !sorted_value_dict in H. now injection H. }
  destruct (dict_get "kind" d) as [kind | ] eqn:K.
  - assert (Ks : dict_get "kind" (sorted_dict d) = Some (sorted_value kind))
      by now rewrite (dict_get_sorted_dict "kind" d ND), K.
    destruct (marshal_keys kind) as [ks | ] eqn:S.
    + rewrite (generate_hash_supported d kind ks D K S).
      rewrite (generate_hash_supported (sorted_dict d) (sorted_value kind) ks
                 Ds Ks) by now rewrite marshal_keys_sorted.
      simpl. unfold fingerprint.
      now rewrite (projection_sorted (sorted_dict d) d ks Ds D E).
    + rewrite !generate_hash_unfold.
      rewrite (lookup_name_document _ (proj2 D)).
      rewrite (lookup_name_document _ (proj2 Ds)).
      cbv zeta. now rewrite K, Ks, marshal_keys_sorted, S.
  - assert (Ks : dict_get "kind" (sorted_dict d) = None)
      by now rewrite (dict_get_sorted_dict "kind" d ND), K.
    rewrite !generate_hash_unfold.
    rewrite (lookup_name_document _ (proj2 D)).
    rewrite (lookup_name_document _ (proj2 Ds)).
    cbv zeta. now rewrite K, Ks.
Qed.

Lemma generate_hash_of_sorted_witness :
  Document configmap_ba /\
  fst (generate_hash (sorted_dict configmap_ba)) =
  fst (generate_hash configmap_ba).
Proof.
  assert (D : Document configmap_ba) by (split; reflexivity).
  split; [exact D | ]. exact (generate_hash_of_sorted configmap_ba D).
Defined.

(** X15. The hash of a Document of a supported kind depends only on what
    the projection holds: the fields under the projection keys ([name]
    being [metadata.name]), a missing field counting as the empty string.
    So a ConfigMap without [data] or without [metadata.name] hashes like
    one that has the empty string there, and the [type] of a ConfigMap
    does not count. *)
Theorem generate_hash_depends_on_projection (d1 d2 : dict) (kind : string)
    (ks : list string) :
  Document d1 -> Document d2 ->
  projection_keys kind = Some ks ->
  dict_get "kind" d1 = Some (VStr kind) ->
  dict_get "kind" d2 = Some (VStr kind) ->
  (forall k, In k ks -> or_empty (field d1 k) = or_empty (field d2 k)) ->
  exists fp, fst (generate_hash d1) = Return fp /\
             fst (generate_hash d2) = Return fp.
Proof.
  intros D1 D2 Hks K1 K2 H.
  exists (fingerprint ks d1). split.
  - rewrite (generate_hash_supported d1 (VStr kind) ks D1 K1
               (marshal_keys_str kind ks Hks)).
    reflexivity.
  - rewrite (generate_hash_supported d2 (VStr kind) ks D2 K2
               (marshal_keys_str kind ks Hks)).
    assert (P : projection ks d2 = projection ks d1).
    { unfold projection. apply map_ext_in. intros k Hk.
      now rewrite (H k Hk). }
    simpl. unfold fingerprint. now rewrite P.
Qed.

Lemma generate_hash_depends_on_projection_witness :
  Document configmap_bare /\ Document configmap_empty_fields /\
  projection_keys "ConfigMap" = Some ["data"; "kind"; "name"] /\
  dict_get "kind" configmap_bare = Some (VStr "ConfigMap") /\
  dict_get "kind" configmap_empty_fields = Some (VStr "ConfigMap") /\
  (forall k, In k ["data"; "kind"; "name"] ->
     or_empty (field configmap_bare k) =
     or_empty (field configmap_empty_fields k)) /\
  (exists fp, fst (generate_hash configmap_bare) = Return fp /\
              fst (generate_hash configmap_empty_fields) = Return fp).
Proof.
  assert (D1 : Document configmap_bare) by (split; reflexivity).
  assert (D2 : Document configmap_empty_fields) by (split; reflexivity).
  assert (H : forall k, In k ["data"; "kind"; "name"] ->
     or_empty (field configmap_bare k) =
     or_empty (field configmap_empty_fields k)).
  { intros k [<- | [<- | [<- | []]]]; reflexivity. }
  split; [exact D1 | ]. split; [exact D2 | ].
  do 3 (split; [reflexivity | ]). split; [exact H | ].
  exact (generate_hash_depends_on_projection configmap_bare
           configmap_empty_fields "ConfigMap" ["data"; "kind"; "name"]
           D1 D2 eq_refl eq_refl eq_refl H).
Defined.

(** ** [sorted_dict] on the object store, for any store *)

(** X16. Whatever the store holds (dicts may share objects), a call of
    [sorted_dict] that returns was given a dict, returns the address of a
    dict that did not exist before, and leaves a store that is the old
    store followed by new objects: it has written to no object it was
    given. *)
Theorem sorted_dict_at_returns (fuel : nat) (a : addr) (h : heap)
    (r : addr) (h' : heap) :
  sorted_dict_at fuel a h = Some (r, h') ->
  (exists items, lookup h a = Some (ODict items)) /\
  r = List.length h /\
  exists result ext, h' = h ++ ODict result :: ext.
Proof.
  destruct fuel as [ | fuel ]; [discriminate | ]. simpl.
  destruct (lookup h a) as [[elems | items] | ]; try discriminate.
  destruct (fold_left _ _ _) as [hfin | ] eqn:E; [ | discriminate].
  intros [= <- <-]. split; [now exists items | ]. split; [reflexivity | ].
  exact (loop_frame (sorted_dict_at fuel) h (sorted_dict_at_frame fuel)
           _ _ _ _ E).
Qed.

Lemma sorted_dict_at_returns_witness :
  sorted_dict_at 2 0 example_heap =
    Some (3, example_heap ++
             [ ODict [("a", RInt 1); ("b", RObj 4)];
               ODict [("x", RObj 2); ("y", RInt 2)] ]) /\
  ((exists items, lookup example_heap 0 = Some (ODict items)) /\
   3 = List.length example_heap /\
   exists result ext,
     example_heap ++ [ ODict [("a", RInt 1); ("b", RObj 4)];
                       ODict [("x", RObj 2); ("y", RInt 2)] ] =
     example_heap ++ ODict result :: ext).
Proof.
  split; [reflexivity | ].
  apply (sorted_dict_at_returns 2 0 example_heap). reflexivity.
Defined.

(** The loop never gets past an item whose value is a dict on which the
    recursive call does not return. *)
Lemma loop_stuck rec (h : heap) (a : addr) (k : string) items :
  (forall b hc r h', rec b hc = Some (r, h') -> exists ext, h' = hc ++ ext) ->
  lookup h a = Some (ODict items) ->
  (forall ext, rec a (h ++ ext) = None) ->
  forall todo acc ext,
    In (k, RObj a) todo ->
    fold_left (loop_body rec (List.length h)) todo
              (Some (h ++ ODict acc :: ext)) = None.
Proof.
  intros Hframe Hl Hrec.
  induction todo as [ | [k' v] todo IH ]; intros acc ext HI; [destruct HI | ].
  simpl. destruct HI as [E | HI].
  - injection E as -> ->. unfold convert, is_dict.
    rewrite (lookup_app h _ a _ Hl), Hrec. apply loop_none.
  - unfold convert.
    destruct (is_dict (h ++ ODict acc :: ext) v).
    + destruct v as [ | | | | b ]; try apply loop_none.
      destruct (rec b (h ++ ODict acc :: ext)) as [[r h'] | ] eqn:E;
        [ | apply loop_none].
      destruct (Hframe _ _ _ _ E) as [ext2 ->].
      rewrite <- app_assoc. simpl. rewrite setitem_middle.
      now apply IH.
    + rewrite setitem_middle. now apply IH.
Qed.

(** X17. On a dict that holds itself under one of its keys [sorted_dict]
    does not return, however much fuel it is given: the recursion of line
    40 does not end. *)
Theorem sorted_dict_at_self (fuel : nat) (h : heap) (a : addr)
    (items : list (string * ref)) (k : string) :
  lookup h a = Some (ODict items) ->
  In (k, RObj a) items ->
  sorted_dict_at fuel a h = None.
Proof.
  intros Hl HI. revert h Hl.
  induction fuel as [ | fuel IH ]; intros h Hl; [reflexivity | ].
  simpl. rewrite Hl.
  rewrite (loop_stuck (sorted_dict_at fuel) h a k items
             (sorted_dict_at_frame fuel) Hl); [reflexivity | | ].
  - intros ext. apply IH. now apply lookup_app.
  - eapply Permutation_in; [ | exact HI].
    apply Permutation_sym. apply sorted_perm.
Qed.

Lemma sorted_dict_at_self_witness :
  lookup self_heap 0 = Some (ODict [("self", RObj 0)]) /\
  In ("self", RObj 0) [("self", RObj 0)] /\
  sorted_dict_at 1000 0 self_heap = None.
Proof.
  split; [reflexivity | ]. split; [now left | ].
  apply (sorted_dict_at_self 1000 self_heap 0 [("self", RObj 0)] "self");
    [reflexivity | now left].
Defined.

(** ** What [generate_hash] returns, for any dict *)

Lemma encode_chars (bs : list Z) :
  String.length (encode bs) = 10%nat /\
  Forall (fun c => char_in "2456789bcdfghkmt" c = true)
         (list_ascii_of_string (encode bs)).
Proof.
  rewrite encode_spec. split.
  - rewrite length_string_of_list_ascii, length_map, length_firstn.
    now rewrite hexdigest_length.
  - rewrite list_ascii_of_string_of_list_ascii. apply Forall_map.
    eapply Forall_impl; [exact substitute_alphabet | ].
    apply Forall_firstn. apply hexdigest_hex.
Qed.

(** X18. Whenever [generate_hash] returns, on any dict, what it returns
    is a string of 10 characters out of [2456789bcdfghkmt]. *)
Theorem generate_hash_returns_hash (d : dict) (fp : string) :
  fst (generate_hash d) = Return fp ->
  String.length fp = 10%nat /\
  Forall (fun c => char_in "2456789bcdfghkmt" c = true)
         (list_ascii_of_string fp).
Proof.
  rewrite generate_hash_unfold.
  destruct (lookup_name d) as [name | e]; [ | discriminate].
  cbv zeta. destruct (dict_get "kind" d) as [kind | ]; [ | discriminate].
  destruct (marshal_keys kind) as [ks | ]; [ | discriminate].
  simpl. intros [= <-]. apply encode_chars.
Qed.

Lemma generate_hash_returns_hash_witness :
  fst (generate_hash secret_s) = Return "g9dfm5g59d" /\
  (String.length "g9dfm5g59d" = 10%nat /\
   Forall (fun c => char_in "2456789bcdfghkmt" c = true)
          (list_ascii_of_string "g9dfm5g59d")).
Proof.
  split; [vm_compute; reflexivity | ].
  apply (generate_hash_returns_hash secret_s "g9dfm5g59d").
  vm_compute. reflexivity.
Defined.

(** ** The text of [json.dumps] determines the value *)

Lemma string_app_assoc (a b c : string) :
  ((a ++ b) ++ c = a ++ (b ++ c))%string.
Proof. induction a as [ | x a IH ]; simpl; [reflexivity | now rewrite IH]. Qed.

Lemma string_app_nil_r (a : string) : (a ++ EmptyString)%string = a.
Proof. induction a as [ | x a IH ]; simpl; [reflexivity | now rewrite IH]. Qed.

(** *** Numbers *)

Lemma uint_text_inj d : forall d' s s',
  after_value s = true -> after_value s' = true ->
  (NilEmpty.string_of_uint d ++ s = NilEmpty.string_of_uint d' ++ s')%string ->
  d = d' /\ s = s'.
Proof.
  induction d; destruct d'; simpl; intros s s' Hs Hs' H;
    try (split; [reflexivity | exact H]);
    try (subst; simpl in *; discriminate);
    try discriminate H;
    injection H as H; destruct (IHd _ _ _ Hs Hs' H) as [-> ->];
    split; reflexivity.
Qed.

Lemma nilzero_uint d :
  NilZero.string_of_uint d = NilEmpty.string_of_uint (nz d).
Proof. destruct d; reflexivity. Qed.

Lemma uint_text_digit d s :
  exists c r, (NilEmpty.string_of_uint (nz d) ++ s)%string = String c r /\
              char_in "0123456789" c = true.
Proof. destruct d; simpl; eexists; eexists; split; reflexivity. Qed.

Lemma int_text_inj i j s s' :
  after_value s = true -> after_value s' = true ->
  (NilZero.string_of_int i ++ s = NilZero.string_of_int j ++ s')%string ->
  nz_int i = nz_int j /\ s = s'.
Proof.
  intros Hs Hs'. destruct i as [d | d], j as [d' | d']; simpl;
    rewrite !nilzero_uint; intros H.
  - destruct (uint_text_inj _ _ _ _ Hs Hs' H) as [-> ->]. now split.
  - destruct (uint_text_digit d s) as [c [r [E D]]]. rewrite E in H.
    injection H as -> _. discriminate D.
  - destruct (uint_text_digit d' s') as [c [r [E D]]]. rewrite E in H.
    injection H as <- _. discriminate D.
  - injection H as H.
    destruct (uint_text_inj _ _ _ _ Hs Hs' H) as [-> ->]. now split.
Qed.

Lemma of_nz_int i : Z.of_int (nz_int i) = Z.of_int i.
Proof. destruct i as [[] | []]; reflexivity. Qed.

Lemma number_text_inj n m s s' :
  after_value s = true -> after_value s' = true ->
  (json_dumps (VInt n) ++ s = json_dumps (VInt m) ++ s')%string ->
  n = m /\ s = s'.
Proof.
  intros Hs Hs' H. simpl in H.
  destruct (int_text_inj _ _ _ _ Hs Hs' H) as [E ->]. split; [ | reflexivity].
  rewrite <- (DecimalZ.of_to n), <- (DecimalZ.of_to m).
  now rewrite <- (of_nz_int (Z.to_int n)), E, of_nz_int.
Qed.

(** *** Strings *)

Lemma unescape_head_escape c r :
  unescape_head (escape_char c ++ r) = Some (c, r).
Proof. destruct c as [[] [] [] [] [] [] [] []]; reflexivity. Qed.

Lemma escaped_text_inj k : forall k' t t',
  (escape_string k ++ quote ++ t = escape_string k' ++ quote ++ t')%string ->
  k = k' /\ t = t'.
Proof.
  induction k as [ | c k IH ]; intros [ | c' k' ] t t' H; simpl in H.
  - injection H as ->. now split.
  - apply (f_equal unescape_head) in H.
    rewrite string_app_assoc, unescape_head_escape in H. discriminate H.
  - apply (f_equal unescape_head) in H.
    rewrite string_app_assoc, unescape_head_escape in H. discriminate H.
  - apply (f_equal unescape_head) in H.
    rewrite !string_app_assoc, !unescape_head_escape in H.
    injection H as -> H. destruct (IH _ _ _ H) as [-> ->]. now split.
Qed.

Lemma basestring_inj k k' t t' :
  (encode_basestring_ascii k ++ t = encode_basestring_ascii k' ++ t')%string ->
  k = k' /\ t = t'.
Proof.
  unfold encode_basestring_ascii. rewrite !string_app_assoc.
  intros H. simpl in H. injection H as H.
  exact (escaped_text_inj _ _ _ _ H).
Qed.

(** *** Sequences of elements *)

Section Sequences.
Context {A : Type} (pr : A -> string) (closer : ascii).
Hypothesis closer_ok : char_in ",]}" closer = true.
Hypothesis closer_not_comma : closer <> ","%char.
Hypothesis pr_head :
  forall a s, exists c r, (pr a ++ s)%string = String c r /\ c <> closer.

Lemma after_rest_text l s : after_value (rest_text closer l s) = true.
Proof. destruct l; simpl; [exact closer_ok | reflexivity]. Qed.

Lemma rest_text_inj l :
  Forall (reads_back pr) l ->
  forall l' s s',
    rest_text closer (map pr l) s = rest_text closer (map pr l') s' ->
    l = l' /\ s = s'.
Proof.
  induction 1 as [ | a l Ha _ IH ]; intros [ | a' l' ] s s' H; simpl in H.
  - injection H as ->. now split.
  - injection H as E _. contradiction.
  - injection H as E _. symmetry in E. contradiction.
  - injection H as H.
    destruct (Ha a' _ _ (after_rest_text _ _) (after_rest_text _ _) H)
      as [-> H'].
    destruct (IH _ _ _ H') as [-> ->]. now split.
Qed.

Lemma seq_text_inj l :
  Forall (reads_back pr) l ->
  forall l' s s',
    seq_text closer (map pr l) s = seq_text closer (map pr l') s' ->
    l = l' /\ s = s'.
Proof.
  intros Hl l' s s' H. destruct l as [ | a l ], l' as [ | a' l' ];
    simpl in H.
  - injection H as ->. now split.
  - destruct (pr_head a' (rest_text closer (map pr l') s'))
      as [c [r [E N]]].
    rewrite E in H. injection H as -> _. contradiction.
  - destruct (pr_head a (rest_text closer (map pr l) s)) as [c [r [E N]]].
    rewrite E in H. injection H as <- _. contradiction.
  - inversion Hl as [ | ? ? Ha Hl' ]; subst.
    destruct (Ha a' _ _ (after_rest_text _ _) (after_rest_text _ _) H)
      as [-> H'].
    destruct (rest_text_inj l Hl' _ _ _ H') as [-> ->]. now split.
Qed.

End Sequences.

Lemma concat_seq_text closer (l : list string) s :
  (String.concat "," l ++ String closer s)%string = seq_text closer l s.
Proof.
  destruct l as [ | x l ]; [reflexivity | ]. simpl seq_text. revert x.
  induction l as [ | y l IH ]; intros x; [reflexivity | ].
  change (String.concat "," (x :: y :: l))
    with (x ++ "," ++ String.concat "," (y :: l))%string.
  rewrite !string_app_assoc. rewrite IH. reflexivity.
Qed.

(** *** Values *)

Lemma digit_tag c : char_in "0123456789" c = true -> tag_of_char c = 2.
Proof.
  destruct c as [[] [] [] [] [] [] [] []]; intros H;
    try reflexivity; discriminate H.
Qed.

Lemma first_tag v s :
  exists c r, (json_dumps v ++ s)%string = String c r /\
              tag_of_char c = tag v.
Proof.
  destruct v as [ | [ | ] | n | k | l | d ].
  - eexists. eexists. split; reflexivity.
  - eexists. eexists. split; reflexivity.
  - eexists. eexists. split; reflexivity.
  - simpl json_dumps. destruct (Z.to_int n) as [u | u]; simpl.
    + rewrite nilzero_uint. destruct (uint_text_digit u s) as [c [r [E D]]].
      exists c, r. split; [exact E | now apply digit_tag].
    + eexists. eexists. split; reflexivity.
  - eexists. eexists. split; reflexivity.
  - rewrite json_dumps_list. eexists. eexists. split; reflexivity.
  - rewrite json_dumps_dict. eexists. eexists. split; reflexivity.
Qed.

Lemma same_tag v v' s s' :
  (json_dumps v ++ s = json_dumps v' ++ s')%string -> tag v = tag v'.
Proof.
  destruct (first_tag v s) as [c [r [E T]]].
  destruct (first_tag v' s') as [c' [r' [E' T']]].
  rewrite E, E'. intros [= -> _]. congruence.
Qed.

Lemma value_head_not (closer : ascii) v s :
  tag_of_char closer = 6 ->
  exists c r, (json_dumps v ++ s)%string = String c r /\ c <> closer.
Proof.
  intros Hc. destruct (first_tag v s) as [c [r [E T]]].
  exists c, r. split; [exact E | ]. intros ->. rewrite Hc in T.
  destruct v; discriminate T.
Qed.

Lemma item_text_reads_back kv :
  reads_back json_dumps (snd kv) -> reads_back item_text kv.
Proof.
  intros IH [k' v'] s s' Hs Hs' H. destruct kv as [k v].
  unfold item_text in H. simpl fst in H. simpl snd in *.
  rewrite !string_app_assoc in H.
  destruct (basestring_inj _ _ _ _ H) as [-> H'].
  simpl in H'. injection H' as H'.
  destruct (IH _ _ _ Hs Hs' H') as [-> ->]. now split.
Qed.

Lemma json_dumps_reads_back v : reads_back json_dumps v.
Proof.
  induction v as [ | b | n | k | l IH | d IH ] using value_ind';
    intros v' s s' Hs Hs' H;
    pose proof (same_tag _ _ _ _ H) as T;
    destruct v' as [ | b' | n' | k' | l' | d' ]; try discriminate T.
  - simpl in H. injection H as ->. now split.
  - destruct b, b'; simpl in H; try discriminate H;
      injection H as ->; now split.
  - destruct (number_text_inj _ _ _ _ Hs Hs' H) as [-> ->]. now split.
  - simpl json_dumps in H.
    destruct (basestring_inj _ _ _ _ H) as [-> ->]. now split.
  - rewrite !json_dumps_list, !string_app_assoc in H.
    simpl in H. injection H as H.
    rewrite !concat_seq_text in H.
    assert (Nc : "]"%char <> ","%char) by discriminate.
    destruct (seq_text_inj json_dumps "]" eq_refl Nc
                (fun a s => value_head_not "]" a s eq_refl) l IH _ _ _ H)
      as [-> ->].
    now split.
  - rewrite !json_dumps_dict, !string_app_assoc in H.
    simpl in H. injection H as H.
    rewrite !concat_seq_text in H.
    fold item_text in H.
    assert (Hh : forall (a : string * value) s0,
              exists c r, (item_text a ++ s0)%string = String c r /\
                          c <> "}"%char).
    { intros [k v] s0. unfold item_text, encode_basestring_ascii. simpl.
      eexists. eexists. split; [reflexivity | discriminate]. }
    assert (Hd : Forall (reads_back item_text) d).
    { eapply Forall_impl; [ | exact IH]. intros kv.
      apply item_text_reads_back. }
    assert (Nc : "}"%char <> ","%char) by discriminate.
    destruct (seq_text_inj item_text "}" eq_refl Nc Hh d Hd _ _ _ H)
      as [-> ->].
    now split.
Qed.

Lemma json_dumps_inj v v' : json_dumps v = json_dumps v' -> v = v'.
Proof.
  intros H.
  destruct (json_dumps_reads_back v v' EmptyString EmptyString
              eq_refl eq_refl) as [E _]; [ | exact E].
  now rewrite !string_app_nil_r.
Qed.

Lemma bytes_of_ascii_string_inj s s' :
  bytes_of_ascii_string s = bytes_of_ascii_string s' -> s = s'.
Proof.
  unfold bytes_of_ascii_string. intros H.
  rewrite <- (string_of_list_ascii_of_string s),
          <- (string_of_list_ascii_of_string s').
  f_equal. revert H.
  generalize (list_ascii_of_string s) as l.
  generalize (list_ascii_of_string s') as l'.
  intros l' l. revert l'.
  induction l as [ | c l IH ]; intros [ | c' l' ] H; simpl in H;
    try discriminate H; [reflexivity | ].
  injection H as Hc Hl. f_equal; [ | now apply IH].
  apply N2Z.inj in Hc.
  rewrite <- (ascii_N_embedding c), <- (ascii_N_embedding c').
  now rewrite Hc.
Qed.

Lemma utf8_json_inj v v' :
  utf8_encode (json_dumps v) = utf8_encode (json_dumps v') -> v = v'.
Proof.
  rewrite !utf8_encode_ascii by apply ascii_text_json.
  intros H. apply json_dumps_inj. now apply bytes_of_ascii_string_inj.
Qed.

(** ** [marshal] and [generate_hash]: what the bytes and the hash tell *)

(** X19. [marshal] loses nothing of what it reads: for a list of distinct
    keys, two dicts with the same marshalled bytes hold the same value
    under each of the keys, a missing key counting as the empty string;
    the same means the same throughout, the key order of nested mappings
    included. *)
Theorem marshal_injective (d1 d2 : dict) (ks : list string) :
  NoDup ks ->
  marshal d1 ks = marshal d2 ks ->
  forall k, In k ks ->
    dict_get_default k (VStr EmptyString) d1 =
    dict_get_default k (VStr EmptyString) d2.
Proof.
  intros ND H k Hk. unfold marshal in H. cbv zeta in H.
  apply utf8_json_inj in H. injection H as H.
  rewrite !fold_assign, !(assign_all_fresh _ []) in H;
    try (simpl; rewrite map_map; simpl; now rewrite map_id).
  simpl in H.
  pose proof (ext_in_map H k Hk) as E. simpl in E. now injection E.
Qed.

Lemma marshal_injective_witness :
  NoDup ["data"; "kind"; "name"] /\
  marshal configmap_bare ["data"; "kind"; "name"] =
  marshal configmap_empty_fields ["data"; "kind"; "name"] /\
  (forall k, In k ["data"; "kind"; "name"] ->
     dict_get_default k (VStr EmptyString) configmap_bare =
     dict_get_default k (VStr EmptyString) configmap_empty_fields).
Proof.
  assert (ND : NoDup ["data"; "kind"; "name"]).
  { repeat constructor; simpl; intuition discriminate. }
  split; [exact ND | ]. split; [reflexivity | ].
  apply (marshal_injective configmap_bare configmap_empty_fields
           ["data"; "kind"; "name"] ND).
  reflexivity.
Defined.

Lemma fingerprint_encode (ks : list string) (d : dict) :
  fingerprint ks d = encode (hashed_bytes ks d).
Proof.
  unfold fingerprint, hashed_bytes. cbv zeta. now rewrite encode_spec.
Qed.

(** X20. The hash tells two Documents of a supported kind apart as far as
    SHA-256 does: when two such Documents with different projections get
    the same hash, the bytes that were hashed are two different messages
    whose SHA-256 digests agree on their first 10 hexadecimal characters.
    Such Documents exist: the witness gives two ConfigMaps that differ in
    a value under [data] and have the same hash. *)
Theorem generate_hash_collision (d1 d2 : dict) (kind : string)
    (ks : list string) :
  Document d1 -> Document d2 ->
  projection_keys kind = Some ks ->
  dict_get "kind" d1 = Some (VStr kind) ->
  dict_get "kind" d2 = Some (VStr kind) ->
  projection ks d1 <> projection ks d2 ->
  fst (generate_hash d1) = fst (generate_hash d2) ->
  hashed_bytes ks d1 <> hashed_bytes ks d2 /\
  substring 0 10 (Sha256.hexdigest (hashed_bytes ks d1)) =
  substring 0 10 (Sha256.hexdigest (hashed_bytes ks d2)).
Proof.
  intros D1 D2 Hks K1 K2 HP H. split.
  - intros E. apply HP. unfold hashed_bytes in E.
    apply utf8_json_inj in E. now injection E.
  - assert (F : fingerprint ks d1 = fingerprint ks d2).
    { rewrite (generate_hash_supported d1 (VStr kind) ks D1 K1
                 (marshal_keys_str kind ks Hks)) in H.
      rewrite (generate_hash_supported d2 (VStr kind) ks D2 K2
                 (marshal_keys_str kind ks Hks)) in H.
      cbn [fst] in H. congruence. }
    rewrite !fingerprint_encode in F.
    rewrite <- !encode_back. now rewrite F.
Qed.

Lemma generate_hash_collision_witness :
  Document configmap_v1 /\ Document configmap_v2 /\
  projection_keys "ConfigMap" = Some ["data"; "kind"; "name"] /\
  dict_get "kind" configmap_v1 = Some (VStr "ConfigMap") /\
  dict_get "kind" configmap_v2 = Some (VStr "ConfigMap") /\
  projection ["data"; "kind"; "name"] configmap_v1 <>
  projection ["data"; "kind"; "name"] configmap_v2 /\
  fst (generate_hash configmap_v1) = fst (generate_hash configmap_v2) /\
  (hashed_bytes ["data"; "kind"; "name"] configmap_v1 <>
   hashed_bytes ["data"; "kind"; "name"] configmap_v2 /\
   substring 0 10
     (Sha256.hexdigest (hashed_bytes ["data"; "kind"; "name"] configmap_v1)) =
   substring 0 10
     (Sha256.hexdigest (hashed_bytes ["data"; "kind"; "name"] configmap_v2))).
Proof.
  assert (D1 : Document configmap_v1) by (split; reflexivity).
  assert (D2 : Document configmap_v2) by (split; reflexivity).
  assert (HP : projection ["data"; "kind"; "name"] configmap_v1 <>
               projection ["data"; "kind"; "name"] configmap_v2).
  { intros E. vm_compute in E. discriminate E. }
  assert (H : fst (generate_hash configmap_v1) =
              fst (generate_hash configmap_v2)).
  { vm_compute. reflexivity. }
  split; [exact D1 | ]. split; [exact D2 | ].
  do 3 (split; [reflexivity | ]). split; [exact HP | ].
  split; [exact H | ].
  exact (generate_hash_collision configmap_v1 configmap_v2 "ConfigMap"
           ["data"; "kind"; "name"] D1 D2 eq_refl eq_refl eq_refl HP H).
Defined.

(** The two ConfigMaps of the witness and their common hash. *)
Example configmap_collision :
  fst (generate_hash configmap_v1) = Return "gkmmmkmcf5" /\
  fst (generate_hash configmap_v2) = Return "gkmmmkmcf5".
Proof. split; vm_compute; reflexivity. Qed.
